(** * script_generator.py: validators, one generation job, the batch

    A shallow embedding of [src/script_generator.py]: the two argparse
    [type] functions, the job run by each pool worker and [main].
    The [Document] class comes from the module [document], which the
    script imports; what its constructor and methods do in a given job
    is an input of the model ([DocumentEnv]).  The pool follows
    [multiprocessing.pool]: jobs are cut into chunks, a worker runs a
    chunk in order, and the map waits for every chunk. *)

From Stdlib Require Import ZArith List String Ascii Bool Lia PeanoNat.
From Stdlib Require Import DecimalString QArith.
Import ListNotations.

Local Open Scope string_scope.
Local Open Scope list_scope.
Local Open Scope Z_scope.

(** ** Python values and exceptions *)

(** The values the validators are applied to: argparse hands a [type]
    function the command-line string; an [int] is what a direct call or
    a second application receives. *)
Inductive py_value :=
| PyInt (n : Z)
| PyStr (s : string).

(** Exception classes that occur in the script.  Every class here is a
    subclass of [Exception]; [DocumentError] stands for whatever the
    [document] module raises under the given class name. *)
Inductive exc_class :=
| ArgumentTypeError
| ValueError
| UnboundLocalError
| DocumentError (name : string).

Record py_exception := PyExc { exc_cls : exc_class; exc_msg : string }.

Definition exc_class_eqb (a b : exc_class) : bool :=
  match a, b with
  | ArgumentTypeError, ArgumentTypeError => true
  | ValueError, ValueError => true
  | UnboundLocalError, UnboundLocalError => true
  | DocumentError x, DocumentError y => String.eqb x y
  | _, _ => false
  end.

(** A call either raises or returns. *)
Definition result (A : Type) : Type := (py_exception + A)%type.

Definition raises_class {A} (c : exc_class) (r : result A) : bool :=
  match r with
  | inl e => exc_class_eqb (exc_cls e) c
  | inr _ => false
  end.

(** ** [int(value)] and [str(n)] *)

Module PyInt_of_str.

(** [Py_ISSPACE]: tab, newline, vertical tab, form feed, carriage
    return, space. *)
Definition Py_ISSPACE (c : ascii) : bool :=
  let n := nat_of_ascii c in
  ((9 <=? n)%nat && (n <=? 13)%nat) || (n =? 32)%nat.

Definition digit_of (c : ascii) : option Z :=
  let n := nat_of_ascii c in
  if ((48 <=? n)%nat && (n <=? 57)%nat)%bool
  then Some (Z.of_nat n - 48) else None.

Fixpoint lstrip (l : list ascii) : list ascii :=
  match l with
  | c :: r => if Py_ISSPACE c then lstrip r else l
  | [] => []
  end.

Definition strip (l : list ascii) : list ascii :=
  rev (lstrip (rev (lstrip l))).

(** Decimal digits, single underscores allowed between two digits.
    [after_digit] tells whether the previous character was a digit. *)
Fixpoint digits (acc : Z) (after_digit : bool) (l : list ascii)
  : option Z :=
  match l with
  | [] => if after_digit then Some acc else None
  | c :: r =>
      if Ascii.eqb c "_"%char
      then (if after_digit then digits acc false r else None)
      else match digit_of c with
           | Some d => digits (10 * acc + d) true r
           | None => None
           end
  end.

Definition signed (l : list ascii) : option Z :=
  match l with
  | "+"%char :: r => digits 0 false r
  | "-"%char :: r => option_map Z.opp (digits 0 false r)
  | _ => digits 0 false l
  end.

Definition parse (s : string) : option Z :=
  signed (strip (list_ascii_of_string s)).

End PyInt_of_str.

(** [int(value)] in base 10.  On a string: surrounding whitespace is
    dropped, then an optional sign and decimal digits; anything else is
    a [ValueError].  Strings are ASCII text here, and the digit-count
    limit of recent interpreters on very long literals is left out. *)
Definition py_int (value : py_value) : result Z :=
  match value with
  | PyInt n => inr n
  | PyStr s =>
      match PyInt_of_str.parse s with
      | Some n => inr n
      | None =>
          inl (PyExc ValueError
                 ("invalid literal for int() with base 10: '" ++ s ++ "'"))
      end
  end.

(** [str(n)] of an integer. *)
Definition str (n : Z) : string := NilZero.string_of_int (Z.to_int n).

(** ** The validators *)

Definition count_error : py_exception :=
  PyExc ArgumentTypeError "There must be a positive number ofimages generated".

Definition level_error : py_exception :=
  PyExc ArgumentTypeError "Level values must be between 1 and 5".

(** [check_output_count(value)], lines 27-39. *)
Definition check_output_count (value : py_value) : result Z :=
  match py_int value with
  | inl e => inl e
  | inr value =>
      if value <? 1
      then inl count_error
      else inr value
  end.

(** [check_level(value)], lines 42-55. *)
Definition check_level (value : py_value) : result Z :=
  match py_int value with
  | inl e => inl e
  | inr value =>
      if (value <? 1) || (value >? 5)
      then inl level_error
      else inr value
  end.

(** ** Effects of a job *)

(** What a run leaves behind: lines printed, and the two artifacts. *)
Inductive event :=
| Stdout (line : string)
| ImageSaved (seed : Z) (base_dir : string)
| MaskSaved (seed : Z) (base_dir : string).

(** A computation: the events so far, then an exception or a value. *)
Definition M (A : Type) : Type := (list event * result A)%type.

Definition ret {A} (a : A) : M A := ([], inr a).

Definition raise {A} (e : py_exception) : M A := ([], inl e).

Definition bind {A B} (m : M A) (k : A -> M B) : M B :=
  match m with
  | (evs, inl e) => (evs, inl e)
  | (evs, inr a) => let (evs', r) := k a in (evs ++ evs', r)
  end.

Notation "x <- c1 ;; c2" := (bind c1 (fun x => c2))
  (at level 61, c1 at next level, right associativity).
Notation "c1 ;; c2" := (bind c1 (fun _ => c2))
  (at level 61, right associativity).

Definition emit (ev : event) : M unit := ([ev], inr tt).

Definition print (line : string) : M unit := emit (Stdout line).

(** [try: body except Exception as exception: handler(exception)]. *)
Definition try_except {A} (body : M A) (handler : py_exception -> M A)
  : M A :=
  match body with
  | (evs, inl exception) =>
      let (evs', r) := handler exception in (evs ++ evs', r)
  | (evs, inr a) => (evs, inr a)
  end.

Definition events {A} (m : M A) : list event := fst m.
Definition outcome {A} (m : M A) : result A := snd m.

Definition raised {A} (m : M A) : bool :=
  match outcome m with inl _ => true | inr _ => false end.

(** ** The [Document] class, as the job sees it *)

Record Document := mkDocument { random_seed : Z }.

(** The behaviour of the [document] module in one job: the constructor
    raises or yields an object carrying its seed; each method raises or
    returns. *)
Record DocumentEnv := mkDocumentEnv {
  Document_init : Z -> Z -> result Document;
  create : Document -> option py_exception;
  save : Document -> string -> option py_exception;
  save_ground_truth : Document -> string -> option py_exception
}.

Definition call_create (env : DocumentEnv) (d : Document) : M unit :=
  match create env d with
  | Some e => raise e
  | None => ret tt
  end.

(** Modelled from the spec: the body of [Document.save] is not in the
    sources; it writes the composite raster under [base_dir], or fails
    with an error on a write failure. *)
Definition call_save (env : DocumentEnv) (d : Document) (base_dir : string)
  : M unit :=
  match save env d base_dir with
  | Some e => raise e
  | None => emit (ImageSaved (random_seed d) base_dir)
  end.

(** Modelled from the spec: the body of [Document.save_ground_truth] is
    not in the sources; it writes the binary mask raster under
    [base_dir], or fails with an error on a write failure. *)
Definition call_save_ground_truth (env : DocumentEnv) (d : Document)
    (base_dir : string) : M unit :=
  match save_ground_truth env d base_dir with
  | Some e => raise e
  | None => emit (MaskSaved (random_seed d) base_dir)
  end.

(** ** One job *)

(** [argparse.Namespace] after parsing. *)
Record Namespace := mkNamespace {
  output_count : Z;
  stain_level : Z;
  text_noise_level : Z;
  output_dir : string
}.

(** The dict [{'iter': x, 'args': args}] handed to a job. *)
Record fn_args := mk_fn_args { iter : Z; args : Namespace }.

(** The exception of reading [document] before it is bound. *)
Definition unbound_document : py_exception :=
  PyExc UnboundLocalError
    "cannot access local variable 'document' where it is not associated with a value".

(** The [except] clause, lines 76-78.  The local [document] is bound
    only once the constructor has returned. *)
Definition except_clause (document : option Document)
    (exception : py_exception) : M unit :=
  match document with
  | None => raise unbound_document
  | Some d =>
      print (str (random_seed d)) ;;
      raise exception
  end.

(** [generate_single_image(fn_args)], lines 58-78. *)
Definition generate_single_image (env : DocumentEnv) (a : fn_args)
  : M unit :=
  print ("Generating image #" ++ str (iter a + 1)) ;;
  match Document_init env (stain_level (args a))
                          (text_noise_level (args a)) with
  | inl exception => except_clause None exception
  | inr document =>
      try_except
        (call_create env document ;;
         call_save env document (output_dir (args a)) ;;
         call_save_ground_truth env document (output_dir (args a)))
        (except_clause (Some document))
  end.

(** ** argparse *)

(** The command line once argparse has told the positional strings
    from the [--output_dir] option.  A line with [-h] or [--help], which
    prints the help and exits with status 0, is not among these, and the
    place of the option among the positionals is not kept. *)
Record command_line := mk_command_line {
  positionals : list string;
  output_dir_flag : option string
}.

Inductive parsed (A : Type) :=
| Parsed (a : A)
| ArgumentError (message : string)
| Propagated (e : py_exception).
Arguments Parsed {A} a.
Arguments ArgumentError {A} message.
Arguments Propagated {A} e.

(** [_get_value]: the [type] function is applied to the argument string;
    its [ArgumentTypeError] keeps its message, a [ValueError] becomes
    "invalid <type> value". *)
Definition get_value (type_func : py_value -> result Z) (type_name : string)
    (arg_string : string) : parsed Z :=
  match type_func (PyStr arg_string) with
  | inr v => Parsed v
  | inl e =>
      match exc_cls e with
      | ArgumentTypeError => ArgumentError (exc_msg e)
      | ValueError =>
          ArgumentError
            ("invalid " ++ type_name ++ " value: '" ++ arg_string ++ "'")
      | _ => Propagated e
      end
  end.

(** A positional with [nargs='?']: when absent, the (non-string)
    default is taken as it is, without the [type] function. *)
Definition optional_positional (type_func : py_value -> result Z)
    (type_name : string) (default : Z) (arg : option string) : parsed Z :=
  match arg with
  | None => Parsed default
  | Some arg_string => get_value type_func type_name arg_string
  end.

Definition parsed_bind {A B} (p : parsed A) (k : A -> parsed B) : parsed B :=
  match p with
  | Parsed a => k a
  | ArgumentError m => ArgumentError m
  | Propagated e => Propagated e
  end.

(** [parser.parse_args()] for the four arguments of lines 89-97. *)
Definition parse_args (default_dir : string) (cl : command_line)
  : parsed Namespace :=
  let arg k := nth_error (positionals cl) k in
  parsed_bind
    (optional_positional check_output_count "check_output_count" 5 (arg 0%nat))
    (fun count =>
  parsed_bind
    (optional_positional check_level "check_level" 1 (arg 1%nat))
    (fun stain =>
  parsed_bind
    (optional_positional check_level "check_level" 1 (arg 2%nat))
    (fun noise =>
  if (3 <? List.length (positionals cl))%nat
  then ArgumentError "unrecognized arguments"
  else Parsed {| output_count := count;
                 stain_level := stain;
                 text_noise_level := noise;
                 output_dir := match output_dir_flag cl with
                               | Some dir => dir
                               | None => default_dir
                               end |}))).

(** ** The default directory *)

(** [random.randint(a, b)]: [a + _randbelow(b - a + 1)].  The unseeded
    generator is represented by the integer [u] it is about to draw
    from; [_randbelow(n)] yields a value of [0 .. n-1]. *)
Definition randbelow (n u : Z) : Z := u mod n.

Definition randint (a b u : Z) : Z := a + randbelow (b - a + 1) u.

(** [DEFAULT_DIR], line 24. *)
Definition DEFAULT_DIR (u : Z) : string :=
  "/data/synthetic_trial_" ++ str (randint 10000 100000 u).

(** ** The process pool *)

Section Pool.
Context {A B : Type}.

(** The chunk size [Pool.map] picks when none is given:
    [divmod(len(iterable), len(pool) * 4)], rounded up. *)
Definition default_chunksize (len : nat) (processes : positive) : nat :=
  let workers4 := (Pos.to_nat processes * 4)%nat in
  let chunksize := (len / workers4)%nat in
  let extra := (len mod workers4)%nat in
  let chunksize := if (extra =? 0)%nat then chunksize else S chunksize in
  if (len =? 0)%nat then 0%nat else chunksize.

(** [Pool._get_tasks]: successive [islice(it, size)] until one is
    empty.  [fuel] bounds the number of slices. *)
Fixpoint get_tasks_fuel (fuel size : nat) (it : list A) : list (list A) :=
  match fuel with
  | O => []
  | S fuel' =>
      match firstn size it with
      | [] => []
      | x => x :: get_tasks_fuel fuel' size (skipn size it)
      end
  end.

Definition get_tasks (size : nat) (it : list A) : list (list A) :=
  get_tasks_fuel (List.length it) size it.

(** [mapstar]: a worker runs [list(map(func, chunk))]; the calls are
    made in order and the first exception ends the task.  The result
    lists the calls that were made, each with its argument. *)
Fixpoint mapstar (func : A -> M B) (chunk : list A) : list (A * M B) :=
  match chunk with
  | [] => []
  | x :: rest =>
      let r := func x in
      (x, r) :: (if raised r then [] else mapstar func rest)
  end.

(** A call of the mapped function, with its argument. *)
Definition call (func : A -> M B) (x : A) : A * M B := (x, func x).

(** What the worker sends back for a task. *)
Fixpoint task_result (calls : list (A * M B)) : M (list B) :=
  match calls with
  | [] => ret []
  | (_, c) :: cs => y <- c ;; ys <- task_result cs ;; ret (y :: ys)
  end.

(** [MapResult]: the value of the map once every task has reported;
    a failed task makes it the exception of that task (here the first
    one in task order). *)
Fixpoint map_result (results : list (M (list B))) : result (list B) :=
  match results with
  | [] => inr []
  | r :: rs =>
      match outcome r with
      | inl e => inl e
      | inr v =>
          match map_result rs with
          | inl e => inl e
          | inr vs => inr (v ++ vs)
          end
      end
  end.

(** [pool.map(func, iterable)]: the calls made in each task, and the
    value returned or exception raised in the parent. *)
Definition pool_map (processes : positive) (func : A -> M B)
    (iterable : list A) : list (list (A * M B)) * result (list B) :=
  let chunksize := default_chunksize (List.length iterable) processes in
  let task_batches := get_tasks chunksize iterable in
  let calls := map (mapstar func) task_batches in
  (calls, map_result (map task_result calls)).

End Pool.

(** ** [main] *)

Definition range (n : Z) : list Z := map Z.of_nat (seq 0 (Z.to_nat n)).

(** The argument list of [pool.map], lines 107-108. *)
Definition jobs (args : Namespace) : list fn_args :=
  map (fun x => {| iter := x; args := args |}) (range (output_count args)).

(** How the process ends: [main] returns, [parser.error] exits with
    status 2, or an exception reaches the top level. *)
Inductive termination :=
| Returned
| Usage (message : string)
| Uncaught (e : py_exception).

Definition exit_status (t : termination) : Z :=
  match t with
  | Returned => 0
  | Usage _ => 2
  | Uncaught _ => 1
  end.

Record main_run := mk_main_run {
  main_stdout : list event;
  tasks : list (list (fn_args * M unit));
  ending : termination
}.

(** [main()], lines 81-108.  [processes] is the size of [Pool()], [u]
    the draw behind [DEFAULT_DIR], [env] the behaviour of the [document]
    module in the job of each index. *)
Definition main (processes : positive) (u : Z) (env : Z -> DocumentEnv)
    (cl : command_line) : main_run :=
  match parse_args (DEFAULT_DIR u) cl with
  | ArgumentError m => mk_main_run [] [] (Usage m)
  | Propagated e => mk_main_run [] [] (Uncaught e)
  | Parsed args =>
      let banner :=
        Stdout ("Generating " ++ str (output_count args)
                ++ " images in " ++ output_dir args) in
      let (calls, value) :=
        pool_map processes
                 (fun a => generate_single_image (env (iter a)) a)
                 (jobs args) in
      mk_main_run [banner] calls
                  match value with
                  | inl e => Uncaught e
                  | inr _ => Returned
                  end
  end.

(** The calls of the job function made during the run, in task order. *)
Definition calls_made (r : main_run) : list (fn_args * M unit) :=
  List.concat (tasks r).


(** ** Observations on a job *)

Definition is_image (ev : event) : bool :=
  match ev with ImageSaved _ _ => true | _ => false end.

Definition is_mask (ev : event) : bool :=
  match ev with MaskSaved _ _ => true | _ => false end.

Definition image_written {A} (m : M A) : bool := existsb is_image (events m).
Definition mask_written {A} (m : M A) : bool := existsb is_mask (events m).

(** A job ran to completion and persisted its pair. *)
Definition completed (m : M unit) : bool :=
  negb (raised m) && image_written m && mask_written m.

(** ** Sample environments *)

(** A [document] module in which every call succeeds. *)
Definition healthy (seed : Z) : DocumentEnv :=
  {| Document_init := fun _ _ => inr (mkDocument seed);
     create := fun _ => None;
     save := fun _ _ => None;
     save_ground_truth := fun _ _ => None |}.

Definition synthesis_error : py_exception :=
  PyExc (DocumentError "SynthesisError") "layout cannot place any text".

Definition disk_full : py_exception :=
  PyExc (DocumentError "OSError") "No space left on device".

Definition failing_constructor : DocumentEnv :=
  {| Document_init := fun _ _ => inl synthesis_error;
     create := fun _ => None;
     save := fun _ _ => None;
     save_ground_truth := fun _ _ => None |}.

Definition failing_create (seed : Z) : DocumentEnv :=
  {| Document_init := fun _ _ => inr (mkDocument seed);
     create := fun _ => Some synthesis_error;
     save := fun _ _ => None;
     save_ground_truth := fun _ _ => None |}.

Definition failing_mask (seed : Z) : DocumentEnv :=
  {| Document_init := fun _ _ => inr (mkDocument seed);
     create := fun _ => None;
     save := fun _ _ => None;
     save_ground_truth := fun _ _ => Some disk_full |}.

(** A [document] module whose constructor refuses a level outside
    1..5 and is healthy otherwise. *)
Definition strict_levels (seed : Z) : DocumentEnv :=
  {| Document_init := fun stain noise =>
       if (1 <=? stain) && (stain <=? 5) && (1 <=? noise) && (noise <=? 5)
       then inr (mkDocument seed)
       else inl (PyExc ValueError "level out of range");
     create := fun _ => None;
     save := fun _ _ => None;
     save_ground_truth := fun _ _ => None |}.

(** Job [k] meets a failing [create]; every other job is healthy, with
    seed [1000 + index]. *)
Definition one_failure (k : Z) (i : Z) : DocumentEnv :=
  if i =? k then failing_create (1000 + i) else healthy (1000 + i).

(** ** Vocabulary of the properties *)

(** The first line a job prints. *)
Definition banner (a : fn_args) : event :=
  Stdout ("Generating image #" ++ str (iter a + 1)).

(** The five ways through [generate_single_image]. *)
Inductive job_path (env : DocumentEnv) (a : fn_args) : M unit -> Prop :=
| path_constructor e :
    Document_init env (stain_level (args a)) (text_noise_level (args a))
    = inl e ->
    job_path env a ([banner a], inl unbound_document)
| path_create d e :
    Document_init env (stain_level (args a)) (text_noise_level (args a))
    = inr d ->
    create env d = Some e ->
    job_path env a ([banner a; Stdout (str (random_seed d))], inl e)
| path_save d e :
    Document_init env (stain_level (args a)) (text_noise_level (args a))
    = inr d ->
    create env d = None ->
    save env d (output_dir (args a)) = Some e ->
    job_path env a ([banner a; Stdout (str (random_seed d))], inl e)
| path_save_ground_truth d e :
    Document_init env (stain_level (args a)) (text_noise_level (args a))
    = inr d ->
    create env d = None ->
    save env d (output_dir (args a)) = None ->
    save_ground_truth env d (output_dir (args a)) = Some e ->
    job_path env a
      ([banner a;
        ImageSaved (random_seed d) (output_dir (args a));
        Stdout (str (random_seed d))], inl e)
| path_return d :
    Document_init env (stain_level (args a)) (text_noise_level (args a))
    = inr d ->
    create env d = None ->
    save env d (output_dir (args a)) = None ->
    save_ground_truth env d (output_dir (args a)) = None ->
    job_path env a
      ([banner a;
        ImageSaved (random_seed d) (output_dir (args a));
        MaskSaved (random_seed d) (output_dir (args a))], inr tt).

(** The function mapped over the jobs. *)
Definition job_func (env : Z -> DocumentEnv) (x : fn_args) : M unit :=
  generate_single_image (env (iter x)) x.

(** The tasks [pool.map] cuts the job list into. *)
Definition task_batches (processes : positive) (a : Namespace)
  : list (list fn_args) :=
  get_tasks (default_chunksize (List.length (jobs a)) processes) (jobs a).

(** The directory an artifact was written under. *)
Definition artifact_dir (ev : event) : option string :=
  match ev with
  | Stdout _ => None
  | ImageSaved _ dir => Some dir
  | MaskSaved _ dir => Some dir
  end.

(** [v] is an integer of [lo .. hi]: [int(v)] yields such a number. *)
Definition integer_in (lo hi : Z) (v : py_value) : Prop :=
  exists n, py_int v = inr n /\ lo <= n <= hi.

(** The number an input stands for when read as a plain decimal: an
    [int] is itself; a string is an optional sign, then digits with at
    most one decimal point among them, surrounding whitespace aside. *)
Module Decimal_of_str.

(** [acc / scale] is the number read so far. *)
Fixpoint digits_point (acc : Z) (scale : positive)
    (after_point any_digit : bool) (l : list ascii) : option Q :=
  match l with
  | [] => if any_digit then Some (acc # scale) else None
  | c :: r =>
      if Ascii.eqb c "."%char
      then (if after_point then None
            else digits_point acc scale true any_digit r)
      else match PyInt_of_str.digit_of c with
           | Some d =>
               digits_point (10 * acc + d)
                            (if after_point then 10 * scale else scale)%positive
                            after_point true r
           | None => None
           end
  end.

Definition signed (l : list ascii) : option Q :=
  match l with
  | "+"%char :: r => digits_point 0 1 false false r
  | "-"%char :: r => option_map Qopp (digits_point 0 1 false false r)
  | _ => digits_point 0 1 false false l
  end.

Definition parse (s : string) : option Q :=
  signed (PyInt_of_str.strip (list_ascii_of_string s)).

End Decimal_of_str.

Definition numeric_value (v : py_value) : option Q :=
  match v with
  | PyInt n => Some (inject_Z n)
  | PyStr s => Decimal_of_str.parse s
  end.

(** [v < bound], for an input [v] that stands for a number. *)
Definition numerically_below (bound : Z) (v : py_value) : Prop :=
  exists q, numeric_value v = Some q /\ (q < inject_Z bound)%Q.

(** The claim on the pair: the image is written exactly when the mask
    is. *)
Definition pair_together (m : M unit) : Prop :=
  image_written m = mask_written m.

(** The claim on siblings: when one job of the batch raises and the
    others would not, every other job is run to completion with its two
    artifacts, and the run ends in failure. *)
Definition failure_isolated (processes : positive) (u : Z)
    (env : Z -> DocumentEnv) (cl : command_line) : Prop :=
  forall a, parse_args (DEFAULT_DIR u) cl = Parsed a ->
  forall i, 0 <= i < output_count a ->
    raised (job_func env (mk_fn_args i a)) = true ->
    (forall j, 0 <= j < output_count a -> j <> i ->
       raised (job_func env (mk_fn_args j a)) = false) ->
    (forall j, 0 <= j < output_count a -> j <> i ->
       exists m, In (mk_fn_args j a, m)
                    (calls_made (main processes u env cl))
                 /\ completed m = true)
    /\ exit_status (ending (main processes u env cl)) <> 0.

(** The namespace of a run without positional arguments. *)
Definition five (dir : string) : Namespace := mkNamespace 5 1 1 dir.

(** The [type] function of the positional at position [k]. *)
Definition validator_of (k : nat) : py_value -> result Z :=
  match k with
  | O => check_output_count
  | _ => check_level
  end.

(** Everything the jobs of a run left behind, in task order. *)
Definition run_events (r : main_run) : list event :=
  flat_map (fun c => events (snd c)) (calls_made r).

Definition images_of (r : main_run) : list event :=
  filter is_image (run_events r).

Definition masks_of (r : main_run) : list event :=
  filter is_mask (run_events r).

(** * Properties *)

(** ** Sample evaluations *)

Example check_level_3 : check_level (PyStr "3") = inr 3.
Proof. reflexivity. Qed.

Example check_level_padded : check_level (PyStr "  +0_4 ") = inr 4.
Proof. reflexivity. Qed.

Example check_level_0_6_m1 :
  map (fun s => raises_class ArgumentTypeError (check_level (PyStr s)))
      ["0"; "6"; "-1"] = [true; true; true].
Proof. reflexivity. Qed.

Example check_level_abc :
  check_level (PyStr "abc")
  = inl (PyExc ValueError "invalid literal for int() with base 10: 'abc'").
Proof. reflexivity. Qed.

Example check_level_malformed :
  map (fun s => raises_class ValueError (check_level (PyStr s)))
      [""; "2.5"; "_3"; "3_"; "1__0"; "- 3"; "3 4"]
  = [true; true; true; true; true; true; true].
Proof. reflexivity. Qed.

Example str_99585 : str 99585 = "99585" /\ str 0 = "0" /\ str (-7) = "-7".
Proof. repeat split. Qed.

(** ** The validators *)

Lemma py_int_error (v : py_value) (e : py_exception) :
  py_int v = inl e -> exc_cls e = ValueError.
Proof.
  destruct v as [n | s]; simpl; [discriminate |].
  destruct (PyInt_of_str.parse s); [discriminate |].
  intros [= <-]. reflexivity.
Qed.

Lemma check_level_cases (v : py_value) (n : Z) :
  py_int v = inr n ->
  (1 <= n <= 5 /\ check_level v = inr n)
  \/ (~ 1 <= n <= 5 /\ check_level v = inl level_error).
Proof.
  intros H. unfold check_level. rewrite H, Z.gtb_ltb.
  destruct (Z.ltb_spec n 1), (Z.ltb_spec 5 n); simpl;
    first [ left; split; [lia | reflexivity]
          | right; split; [lia | reflexivity] ].
Qed.

Lemma check_output_count_cases (v : py_value) (n : Z) :
  py_int v = inr n ->
  (1 <= n /\ check_output_count v = inr n)
  \/ (n < 1 /\ check_output_count v = inl count_error).
Proof.
  intros H. unfold check_output_count. rewrite H.
  destruct (Z.ltb_spec n 1); [right | left]; split; auto; lia.
Qed.

Lemma check_level_not_int (v : py_value) (e : py_exception) :
  py_int v = inl e -> check_level v = inl e.
Proof. intros H. unfold check_level. now rewrite H. Qed.

Lemma check_output_count_not_int (v : py_value) (e : py_exception) :
  py_int v = inl e -> check_output_count v = inl e.
Proof. intros H. unfold check_output_count. now rewrite H. Qed.

(** What [parse_args] lets through. *)
Lemma get_value_Parsed (type_func : py_value -> result Z)
    (name arg_string : string) (n : Z) :
  get_value type_func name arg_string = Parsed n ->
  type_func (PyStr arg_string) = inr n.
Proof.
  unfold get_value. destruct (type_func (PyStr arg_string)) as [e | v].
  - destruct (exc_cls e); discriminate.
  - now intros [= ->].
Qed.

Lemma check_level_inr (v : py_value) (n : Z) :
  check_level v = inr n -> py_int v = inr n /\ 1 <= n <= 5.
Proof.
  intros H. destruct (py_int v) as [e | k] eqn:E.
  - rewrite (check_level_not_int _ _ E) in H. discriminate.
  - destruct (check_level_cases _ _ E) as [[Hr Hc] | [_ Hc]];
      rewrite Hc in H; [| discriminate].
    injection H as <-. auto.
Qed.

Lemma check_output_count_inr (v : py_value) (n : Z) :
  check_output_count v = inr n -> py_int v = inr n /\ 1 <= n.
Proof.
  intros H. destruct (py_int v) as [e | k] eqn:E.
  - rewrite (check_output_count_not_int _ _ E) in H. discriminate.
  - destruct (check_output_count_cases _ _ E) as [[Hr Hc] | [_ Hc]];
      rewrite Hc in H; [| discriminate].
    injection H as <-. auto.
Qed.

Lemma parse_args_inv (d : string) (cl : command_line) (a : Namespace) :
  parse_args d cl = Parsed a ->
  optional_positional check_output_count "check_output_count" 5
    (nth_error (positionals cl) 0) = Parsed (output_count a)
  /\ optional_positional check_level "check_level" 1
       (nth_error (positionals cl) 1) = Parsed (stain_level a)
  /\ optional_positional check_level "check_level" 1
       (nth_error (positionals cl) 2) = Parsed (text_noise_level a)
  /\ output_dir a = match output_dir_flag cl with
                    | Some dir => dir
                    | None => d
                    end.
Proof.
  unfold parse_args.
  destruct (optional_positional check_output_count _ _ _); try discriminate.
  destruct (optional_positional check_level _ _ (nth_error _ 1));
    try discriminate.
  destruct (optional_positional check_level _ _ (nth_error _ 2));
    try discriminate.
  simpl. destruct (3 <? _)%nat; [discriminate |].
  intros [= <-]. simpl. auto.
Qed.

Lemma parse_args_valid (d : string) (cl : command_line) (a : Namespace) :
  parse_args d cl = Parsed a ->
  1 <= output_count a
  /\ 1 <= stain_level a <= 5
  /\ 1 <= text_noise_level a <= 5.
Proof.
  intros H. destruct (parse_args_inv _ _ _ H) as (Hc & Hs & Ht & _).
  repeat split.
  - destruct (nth_error (positionals cl) 0); simpl in Hc.
    + apply get_value_Parsed, check_output_count_inr in Hc. tauto.
    + injection Hc as <-. lia.
  - destruct (nth_error (positionals cl) 1); simpl in Hs.
    + apply get_value_Parsed, check_level_inr in Hs. lia.
    + injection Hs as <-. lia.
  - destruct (nth_error (positionals cl) 1); simpl in Hs.
    + apply get_value_Parsed, check_level_inr in Hs. lia.
    + injection Hs as <-. lia.
  - destruct (nth_error (positionals cl) 2); simpl in Ht.
    + apply get_value_Parsed, check_level_inr in Ht. lia.
    + injection Ht as <-. lia.
  - destruct (nth_error (positionals cl) 2); simpl in Ht.
    + apply get_value_Parsed, check_level_inr in Ht. lia.
    + injection Ht as <-. lia.
Qed.

(** ** Lists cut into chunks *)

Section ListFacts.
Context {T : Type}.

Lemma NoDup_app_disjoint (l1 l2 : list T) (x : T) :
  NoDup (l1 ++ l2) -> In x l1 -> In x l2 -> False.
Proof.
  induction l1 as [| y l1 IH]; simpl; intros Hnd H1 H2; [contradiction |].
  inversion Hnd as [| ? ? Hy Hrest]; subst.
  destruct H1 as [-> | H1].
  - apply Hy, in_or_app. now right.
  - now apply IH.
Qed.

Lemma NoDup_concat_unique (ls : list (list T)) (c1 c2 : list T) (x : T) :
  NoDup (List.concat ls) ->
  In c1 ls -> In c2 ls -> In x c1 -> In x c2 -> c1 = c2.
Proof.
  induction ls as [| l ls IH]; simpl; intros Hnd H1 H2 Hx1 Hx2;
    [contradiction |].
  assert (Hin : forall c, In c ls -> In x c -> In x (List.concat ls)).
  { intros c Hc Hxc. apply in_concat. now exists c. }
  destruct H1 as [-> | H1], H2 as [-> | H2]; auto.
  - exfalso. apply (NoDup_app_disjoint _ _ x Hnd); eauto.
  - exfalso. apply (NoDup_app_disjoint _ _ x Hnd); eauto.
  - apply IH; auto. now apply NoDup_app_remove_l in Hnd.
Qed.

Lemma NoDup_concat_chunk (ls : list (list T)) (c : list T) :
  NoDup (List.concat ls) -> In c ls -> NoDup c.
Proof.
  induction ls as [| l ls IH]; simpl; intros Hnd Hc; [contradiction |].
  destruct Hc as [-> | Hc].
  - now apply NoDup_app_remove_r in Hnd.
  - apply IH; auto. now apply NoDup_app_remove_l in Hnd.
Qed.

Lemma firstn_nil_inv (n : nat) (l : list T) :
  (1 <= n)%nat -> firstn n l = [] -> l = [].
Proof.
  destruct n; [lia |]. destruct l; [reflexivity | discriminate].
Qed.

(** With a positive chunk size and fuel for every element, the tasks
    cut by [get_tasks] are the whole list, in order. *)
Lemma get_tasks_fuel_concat (fuel size : nat) (it : list T) :
  (1 <= size)%nat -> (List.length it <= fuel)%nat ->
  List.concat (get_tasks_fuel fuel size it) = it.
Proof.
  intros Hsize. revert it.
  induction fuel as [| fuel IH]; intros it Hlen; simpl.
  - destruct it; [reflexivity | simpl in Hlen; lia].
  - destruct (firstn size it) as [| x chunk] eqn:E.
    + symmetry. now apply (firstn_nil_inv size).
    + simpl. rewrite IH.
      * change (x :: chunk ++ skipn size it) with ((x :: chunk) ++ skipn size it).
        rewrite <- E. apply firstn_skipn.
      * rewrite length_skipn.
        destruct it; [rewrite firstn_nil in E; discriminate |].
        cbn [List.length] in Hlen |- *. lia.
Qed.

Lemma get_tasks_concat (size : nat) (it : list T) :
  (1 <= size)%nat -> List.concat (get_tasks size it) = it.
Proof. intros H. now apply get_tasks_fuel_concat. Qed.

End ListFacts.

Lemma default_chunksize_pos (len : nat) (processes : positive) :
  (1 <= len)%nat -> (1 <= default_chunksize len processes)%nat.
Proof.
  intros Hlen. unfold default_chunksize.
  destruct (Nat.eqb_spec len 0); [lia |].
  set (w := (Pos.to_nat processes * 4)%nat).
  assert (Hw : w <> 0%nat) by (unfold w; lia).
  destruct (Nat.eqb_spec (len mod w) 0) as [E | E]; [| lia].
  pose proof (Nat.div_mod_eq len w) as Hd. rewrite E in Hd.
  destruct (len / w)%nat; lia.
Qed.

(** ** A task of the pool *)

Section PoolFacts.
Context {A B : Type}.
Variable func : A -> M B.

Lemma mapstar_In (chunk : list A) (x : A) (m : M B) :
  In (x, m) (mapstar func chunk) -> In x chunk /\ m = func x.
Proof.
  induction chunk as [| y chunk IH]; simpl; [contradiction |].
  intros [[= <- <-] | H]; [auto |].
  destruct (raised (func y)); [contradiction |].
  destruct (IH H); auto.
Qed.

(** No exception: every element of the chunk is called. *)
Lemma mapstar_all (chunk : list A) :
  Forall (fun y => raised (func y) = false) chunk ->
  mapstar func chunk = map (call func) chunk.
Proof.
  induction 1 as [| y chunk Hy _ IH]; simpl; [reflexivity |].
  now rewrite Hy, IH.
Qed.

(** The first exception ends the task: what follows is not called. *)
Lemma mapstar_stops (pre post : list A) (x : A) :
  Forall (fun y => raised (func y) = false) pre ->
  raised (func x) = true ->
  mapstar func (pre ++ x :: post) = map (call func) (pre ++ [x]).
Proof.
  induction 1 as [| y pre Hy _ IH]; simpl; intros Hx.
  - now rewrite Hx.
  - now rewrite Hy, IH.
Qed.

(** Up to the first exception every element is called. *)
Lemma mapstar_reaches (pre post : list A) (x : A) :
  Forall (fun y => raised (func y) = false) pre ->
  In (call func x) (mapstar func (pre ++ x :: post)).
Proof.
  induction 1 as [| y pre Hy _ IH]; simpl.
  - now left.
  - right. now rewrite Hy.
Qed.

Lemma task_result_raised (calls : list (A * M B)) :
  raised (task_result calls) = existsb (fun c => raised (snd c)) calls.
Proof.
  induction calls as [| [x [evs [e | b]]] calls IH]; simpl; [reflexivity | reflexivity |].
  unfold raised, outcome in *. simpl in *. rewrite <- IH.
  destruct (task_result calls) as [evs' [e | bs]]; reflexivity.
Qed.

Lemma map_result_raised (results : list (M (list B))) :
  (exists e, map_result results = inl e)
  <-> existsb raised results = true.
Proof.
  induction results as [| r results IH]; simpl.
  - split; [intros [e H]; discriminate | discriminate].
  - unfold raised at 1. destruct (outcome r) as [e | v]; simpl.
    + split; eauto.
    + rewrite <- IH. destruct (map_result results) as [e | vs].
      * split; eauto.
      * split; intros [e H]; discriminate.
Qed.

(** [pool.map] raises exactly when one of the calls made raised. *)
Lemma pool_map_raises (processes : positive) (iterable : list A) :
  (exists e, snd (pool_map processes func iterable) = inl e)
  <-> exists x m,
        In (x, m) (List.concat (fst (pool_map processes func iterable)))
        /\ raised m = true.
Proof.
  unfold pool_map. simpl. rewrite map_result_raised, existsb_exists.
  split.
  - intros (r & Hr & Hraised).
    apply in_map_iff in Hr as (calls & <- & Hcalls).
    rewrite task_result_raised in Hraised.
    apply existsb_exists in Hraised as ([x m] & Hin & Hm).
    exists x, m. split; [| exact Hm].
    apply in_concat. eauto.
  - intros (x & m & Hin & Hm).
    apply in_concat in Hin as (calls & Hcalls & Hin).
    exists (task_result calls). split; [now apply in_map |].
    rewrite task_result_raised. apply existsb_exists.
    exists (x, m). auto.
Qed.

End PoolFacts.

(** ** One job *)

Lemma generate_single_image_path (env : DocumentEnv) (a : fn_args) :
  job_path env a (generate_single_image env a).
Proof.
  unfold generate_single_image.
  destruct (Document_init env _ _) as [e | d] eqn:Ed.
  - now apply path_constructor with e.
  - unfold call_create, call_save, call_save_ground_truth.
    destruct (create env d) as [e |] eqn:Ec.
    + now apply path_create.
    + destruct (save env d _) as [e |] eqn:Es.
      * now apply path_save.
      * destruct (save_ground_truth env d _) as [e |] eqn:Eg.
        -- now apply path_save_ground_truth.
        -- now apply path_return.
Qed.

(** An exception of [create], [save] or [save_ground_truth]: the seed of
    the document is printed and that exception is raised again. *)
Lemma handler_reports_seed (env : DocumentEnv) (a : fn_args) (d : Document)
    (e : py_exception) :
  Document_init env (stain_level (args a)) (text_noise_level (args a))
  = inr d ->
  outcome (generate_single_image env a) = inl e ->
  In (Stdout (str (random_seed d))) (events (generate_single_image env a))
  /\ (create env d = Some e
      \/ save env d (output_dir (args a)) = Some e
      \/ save_ground_truth env d (output_dir (args a)) = Some e).
Proof.
  intros Hd He.
  destruct (generate_single_image_path env a) as [e' H | d' e' H Hc | d' e' H Hc Hs | d' e' H Hc Hs Hg | d' H Hc Hs Hg];
    rewrite Hd in H; try discriminate; injection H as <-;
    simpl in He; try discriminate; injection He as <-;
    (split; [simpl; tauto | tauto]).
Qed.

(** An exception of the constructor: the handler finds [document]
    unbound; no seed is printed and the exception is replaced. *)
Lemma constructor_failure (env : DocumentEnv) (a : fn_args)
    (e : py_exception) :
  Document_init env (stain_level (args a)) (text_noise_level (args a))
  = inl e ->
  generate_single_image env a = ([banner a], inl unbound_document).
Proof.
  intros He.
  destruct (generate_single_image_path env a) as [e' H | d' e' H Hc | d' e' H Hc Hs | d' e' H Hc Hs Hg | d' H Hc Hs Hg];
    rewrite He in H; try discriminate; reflexivity.
Qed.

(** C2, at a job whose [Document(...)] call raises: the job prints no
    seed and raises [UnboundLocalError] instead of the exception of the
    constructor. *)
Theorem constructor_failure_loses_exception :
  Document_init failing_constructor 1 1 = inl synthesis_error
  /\ generate_single_image failing_constructor
       (mk_fn_args 1 (mkNamespace 5 1 1 "/data/out"))
     = ([Stdout "Generating image #2"], inl unbound_document)
  /\ unbound_document <> synthesis_error.
Proof. repeat split. discriminate. Qed.

(** ** The pair of artifacts *)

(** C3 fails when [save_ground_truth] raises after [save] has returned:
    the image is written and the mask is not. *)
Lemma image_without_mask :
  ~ pair_together
      (generate_single_image (failing_mask 99585)
         (mk_fn_args 0 (mkNamespace 5 1 1 "/data/out"))).
Proof. unfold pair_together. vm_compute. discriminate. Qed.

(** C3, amended: a job that returns has written the image and then the
    mask; the mask is never written without the image; the image is left
    without its mask exactly when [save] returns and [save_ground_truth]
    raises. *)
Theorem artifacts_of_a_job (env : DocumentEnv) (a : fn_args) :
  let m := generate_single_image env a in
  (raised m = false ->
     exists d,
       events m = [banner a;
                   ImageSaved (random_seed d) (output_dir (args a));
                   MaskSaved (random_seed d) (output_dir (args a))])
  /\ (mask_written m = true -> image_written m = true)
  /\ (image_written m = true /\ mask_written m = false
      <-> exists d e,
            Document_init env (stain_level (args a))
                              (text_noise_level (args a)) = inr d
            /\ create env d = None
            /\ save env d (output_dir (args a)) = None
            /\ save_ground_truth env d (output_dir (args a)) = Some e).
Proof.
  intros m. subst m.
  destruct (generate_single_image_path env a) as [e' H | d' e' H Hc | d' e' H Hc Hs | d' e' H Hc Hs Hg | d' H Hc Hs Hg];
    (split; [| split; [| split]]);
    try (intros Hr; discriminate Hr);
    try (intros [Hi Hm]; discriminate);
    try (intros _; reflexivity);
    try (intros (d & e & Hd & Hc' & Hs' & Hg'); rewrite H in Hd;
         first [discriminate | injection Hd as <-; congruence]).
  - intros _. exists d', e'. auto.
  - intros _. split; reflexivity.
  - intros _. now exists d'.
Qed.

Lemma artifacts_of_a_job_witness :
  image_written
    (generate_single_image (healthy 99585)
       (mk_fn_args 0 (mkNamespace 5 1 1 "/data/out"))) = true.
Proof.
  apply (proj1 (proj2 (artifacts_of_a_job (healthy 99585)
                         (mk_fn_args 0 (mkNamespace 5 1 1 "/data/out"))))).
  reflexivity.
Defined.

(** ** Claims on the validators *)

(** C4 fails at a string that holds no integer: [int] raises
    [ValueError] before the range is looked at, so the error of the
    validator is not the one raised. *)
Lemma check_level_not_an_integer :
  ~ (raises_class ArgumentTypeError (check_level (PyStr "abc")) = true
     <-> ~ integer_in 1 5 (PyStr "abc")).
Proof.
  intros [_ H].
  assert (Hn : ~ integer_in 1 5 (PyStr "abc")).
  { intros (n & Hn & _). discriminate Hn. }
  specialize (H Hn). discriminate H.
Qed.

(** C4, amended: on every input that [int] turns into a number [n], the
    level validator raises [ArgumentTypeError] when and only when [n] is
    outside 1..5, and returns [n] otherwise; an input that [int] rejects
    gets the [ValueError] of [int]; both level arguments of the command
    line go through this validator. *)
Theorem check_level_on_integers :
  (forall v n, py_int v = inr n ->
     (raises_class ArgumentTypeError (check_level v) = true
      <-> ~ 1 <= n <= 5)
     /\ (1 <= n <= 5 -> check_level v = inr n))
  /\ (forall v e, py_int v = inl e ->
        check_level v = inl e /\ exc_cls e = ValueError)
  /\ (forall d cl a, parse_args d cl = Parsed a ->
        (forall s, nth_error (positionals cl) 1 = Some s ->
           check_level (PyStr s) = inr (stain_level a))
        /\ (forall s, nth_error (positionals cl) 2 = Some s ->
              check_level (PyStr s) = inr (text_noise_level a))).
Proof.
  split; [| split].
  - intros v n Hn.
    destruct (check_level_cases v n Hn) as [[Hr Hc] | [Hr Hc]];
      rewrite Hc; simpl.
    + split; [split; [discriminate | intros H; contradiction] | reflexivity].
    + split; [split; [intros _; exact Hr | reflexivity] |].
      intros H. contradiction.
  - intros v e He. split.
    + now apply check_level_not_int.
    + now apply py_int_error with v.
  - intros d cl a H.
    destruct (parse_args_inv _ _ _ H) as (_ & Hs & Ht & _).
    split; intros s Hnth.
    + rewrite Hnth in Hs. now apply get_value_Parsed in Hs.
    + rewrite Hnth in Ht. now apply get_value_Parsed in Ht.
Qed.

Lemma check_level_on_integers_witness :
  raises_class ArgumentTypeError (check_level (PyStr "6")) = true
  /\ check_level (PyStr " 4") = inr 4.
Proof.
  split.
  - apply (proj1 check_level_on_integers (PyStr "6") 6 eq_refl). lia.
  - apply (proj1 check_level_on_integers (PyStr " 4") 4 eq_refl). lia.
Defined.

Example numeric_value_samples :
  map numeric_value [PyStr "0.5"; PyStr " -2.5"; PyStr "12"; PyInt 3;
                     PyStr "abc"; PyStr "."; PyStr "1.2.3"]
  = [Some (5 # 10); Some (Qopp (25 # 10)); Some (12 # 1); Some (3 # 1);
     None; None; None].
Proof. reflexivity. Qed.

Lemma numerically_below_int (bound n : Z) :
  numerically_below bound (PyInt n) <-> n < bound.
Proof.
  unfold numerically_below. simpl. split.
  - intros (q & [= <-] & H). unfold Qlt in H. simpl in H. lia.
  - intros H. exists (inject_Z n). split; [reflexivity |].
    unfold Qlt. simpl. lia.
Qed.

(** C5 fails at a string that holds a number below 1 which is not an
    integer: [int] raises [ValueError] before the comparison, so the
    error of the count validator is not the one raised. *)
Lemma check_output_count_on_a_fraction :
  ~ (raises_class ArgumentTypeError (check_output_count (PyStr "0.5")) = true
     <-> numerically_below 1 (PyStr "0.5")).
Proof.
  intros [_ H].
  assert (Hb : numerically_below 1 (PyStr "0.5")).
  { exists (5 # 10). split; reflexivity. }
  specialize (H Hb). discriminate H.
Qed.

(** C5, amended: on every input that [int] turns into a number [n], the
    count validator raises its [ArgumentTypeError] when and only when
    [n < 1], and returns [n] otherwise; an input that [int] rejects gets
    the [ValueError] of [int]; a count below 1 on the command line ends
    [main] in [parse_args], with nothing printed and no job handed to
    the pool. *)
Theorem check_output_count_on_integers :
  (forall v n, py_int v = inr n ->
     (raises_class ArgumentTypeError (check_output_count v) = true
      <-> n < 1)
     /\ (1 <= n -> check_output_count v = inr n))
  /\ (forall v, raises_class ArgumentTypeError (check_output_count v) = true
                <-> exists n, py_int v = inr n /\ n < 1)
  /\ (forall v e, py_int v = inl e ->
        check_output_count v = inl e /\ exc_cls e = ValueError)
  /\ (forall processes u env cl s n,
        nth_error (positionals cl) 0 = Some s ->
        py_int (PyStr s) = inr n ->
        n < 1 ->
        main processes u env cl
        = mk_main_run [] [] (Usage (exc_msg count_error))).
Proof.
  assert (Hiff : forall v n, py_int v = inr n ->
            (raises_class ArgumentTypeError (check_output_count v) = true
             <-> n < 1)).
  { intros v n E.
    destruct (check_output_count_cases _ _ E) as [[Hr Hc] | [Hr Hc]];
      rewrite Hc; simpl; split; try discriminate; try lia; auto. }
  split; [| split; [| split]].
  - intros v n E. split; [now apply Hiff |].
    intros Hn.
    destruct (check_output_count_cases _ _ E) as [[Hr Hc] | [Hr Hc]];
      [exact Hc | lia].
  - intros v. split.
    + intros H. destruct (py_int v) as [e | n] eqn:E.
      * rewrite (check_output_count_not_int _ _ E) in H.
        simpl in H. rewrite (py_int_error _ _ E) in H. discriminate.
      * exists n. split; [reflexivity |]. now apply (Hiff v).
    + intros (n & E & Hn). now apply (Hiff v n).
  - intros v e E. split.
    + now apply check_output_count_not_int.
    + now apply py_int_error with v.
  - intros processes u env cl s n Hnth E Hn.
    destruct (check_output_count_cases _ _ E) as [[Hr Hc] | [Hr Hc]];
      [lia |].
    unfold main, parse_args. rewrite Hnth.
    unfold optional_positional, get_value. rewrite Hc. reflexivity.
Qed.

Lemma check_output_count_on_integers_witness :
  check_output_count (PyStr "12") = inr 12
  /\ exc_cls (PyExc ValueError
                "invalid literal for int() with base 10: '-2.5'") = ValueError
  /\ tasks (main 4 0 healthy (mk_command_line ["0"; "2"; "3"] None)) = [].
Proof.
  destruct check_output_count_on_integers as (Hint & _ & Herr & Hmain).
  split; [| split].
  - apply (Hint (PyStr "12") 12 eq_refl). lia.
  - apply (Herr (PyStr "-2.5")). reflexivity.
  - rewrite (Hmain 4%positive 0 healthy
               (mk_command_line ["0"; "2"; "3"] None) "0" 0 eq_refl eq_refl).
    + reflexivity.
    + lia.
Defined.

(** C10: both validators return a valid integer unchanged, and applying
    one to its own result changes nothing; they are functions of their
    argument alone. *)
Theorem validators_identity_on_valid :
  (forall n, 1 <= n <= 5 -> check_level (PyInt n) = inr n)
  /\ (forall n, 1 <= n -> check_output_count (PyInt n) = inr n)
  /\ (forall v n, check_level v = inr n -> check_level (PyInt n) = inr n)
  /\ (forall v n, check_output_count v = inr n ->
        check_output_count (PyInt n) = inr n).
Proof.
  assert (Hl : forall n, 1 <= n <= 5 -> check_level (PyInt n) = inr n).
  { intros n Hn.
    destruct (check_level_cases (PyInt n) n eq_refl) as [[_ Hc] | [Hr _]];
      [exact Hc | contradiction]. }
  assert (Hc : forall n, 1 <= n -> check_output_count (PyInt n) = inr n).
  { intros n Hn.
    destruct (check_output_count_cases (PyInt n) n eq_refl)
      as [[_ Hc] | [Hr _]]; [exact Hc | lia]. }
  repeat split; auto.
  - intros v n H. apply Hl. now apply check_level_inr in H.
  - intros v n H. apply Hc. now apply check_output_count_inr in H.
Qed.

Lemma validators_identity_on_valid_witness :
  check_level (PyInt 5) = inr 5 /\ check_output_count (PyInt 1) = inr 1.
Proof.
  split.
  - apply (proj1 validators_identity_on_valid 5). lia.
  - apply (proj1 (proj2 validators_identity_on_valid) 1). lia.
Defined.

(** C8: without positional arguments the parsed values are 5, 1 and 1;
    each positional left out takes its own default. *)
Theorem defaults_when_omitted :
  (forall d flag,
     parse_args d (mk_command_line [] flag)
     = Parsed {| output_count := 5;
                 stain_level := 1;
                 text_noise_level := 1;
                 output_dir := match flag with
                               | Some dir => dir
                               | None => d
                               end |})
  /\ (forall d cl a, parse_args d cl = Parsed a ->
        (nth_error (positionals cl) 0 = None -> output_count a = 5)
        /\ (nth_error (positionals cl) 1 = None -> stain_level a = 1)
        /\ (nth_error (positionals cl) 2 = None -> text_noise_level a = 1)).
Proof.
  split; [reflexivity |].
  intros d cl a H.
  destruct (parse_args_inv _ _ _ H) as (Hc & Hs & Ht & _).
  repeat split; intros Hnth.
  - rewrite Hnth in Hc. now injection Hc.
  - rewrite Hnth in Hs. now injection Hs.
  - rewrite Hnth in Ht. now injection Ht.
Qed.

Lemma defaults_when_omitted_witness :
  text_noise_level (mkNamespace 3 2 1 "/data/out") = 1.
Proof.
  apply (proj2 defaults_when_omitted "/data/out"
           (mk_command_line ["3"; "2"] None)
           (mkNamespace 3 2 1 "/data/out") eq_refl).
  reflexivity.
Defined.

(** ** The batch *)

Lemma range_length (n : Z) : List.length (range n) = Z.to_nat n.
Proof. unfold range. now rewrite length_map, length_seq. Qed.

Lemma range_nth (n i : Z) :
  0 <= i < n -> nth_error (range n) (Z.to_nat i) = Some i.
Proof.
  intros H. unfold range.
  rewrite nth_error_map, nth_error_seq.
  destruct (Nat.ltb_spec (Z.to_nat i) (Z.to_nat n)); [| lia].
  simpl. f_equal. lia.
Qed.

Lemma range_In (n i : Z) : In i (range n) <-> 0 <= i < n.
Proof.
  unfold range. rewrite in_map_iff. split.
  - intros (k & <- & Hk). apply in_seq in Hk. lia.
  - intros H. exists (Z.to_nat i). split; [lia |]. apply in_seq. lia.
Qed.

Lemma range_NoDup (n : Z) : NoDup (range n).
Proof.
  unfold range. apply NoDup_map_NoDup_ForallPairs.
  - intros x y _ _ H. lia.
  - apply seq_NoDup.
Qed.

Lemma jobs_length (a : Namespace) :
  List.length (jobs a) = Z.to_nat (output_count a).
Proof. unfold jobs. now rewrite length_map, range_length. Qed.

Lemma jobs_nth (a : Namespace) (i : Z) :
  0 <= i < output_count a ->
  nth_error (jobs a) (Z.to_nat i) = Some {| iter := i; args := a |}.
Proof.
  intros H. unfold jobs. now rewrite nth_error_map, range_nth.
Qed.

Lemma jobs_In (a : Namespace) (x : fn_args) :
  In x (jobs a) <-> args x = a /\ 0 <= iter x < output_count a.
Proof.
  unfold jobs. rewrite in_map_iff. split.
  - intros (i & <- & Hi). apply range_In in Hi. auto.
  - intros [<- Hi]. exists (iter x). split; [now destruct x |].
    now apply range_In.
Qed.

Lemma jobs_NoDup (a : Namespace) : NoDup (jobs a).
Proof.
  unfold jobs. apply NoDup_map_NoDup_ForallPairs.
  - intros x y _ _ H. now injection H.
  - apply range_NoDup.
Qed.

Lemma task_batches_concat (processes : positive) (a : Namespace) :
  List.concat (task_batches processes a) = jobs a.
Proof.
  unfold task_batches.
  destruct (jobs a) as [| x l] eqn:E; [reflexivity |].
  apply get_tasks_concat, default_chunksize_pos. simpl. lia.
Qed.

Lemma main_parsed (processes : positive) (u : Z) (env : Z -> DocumentEnv)
    (cl : command_line) (a : Namespace) :
  parse_args (DEFAULT_DIR u) cl = Parsed a ->
  main processes u env cl
  = mk_main_run
      [Stdout ("Generating " ++ str (output_count a)
               ++ " images in " ++ output_dir a)]
      (map (mapstar (job_func env)) (task_batches processes a))
      match snd (pool_map processes (job_func env) (jobs a)) with
      | inl e => Uncaught e
      | inr _ => Returned
      end.
Proof. intros H. unfold main. now rewrite H. Qed.

Lemma main_not_parsed (processes : positive) (u : Z)
    (env : Z -> DocumentEnv) (cl : command_line) :
  (forall a, parse_args (DEFAULT_DIR u) cl <> Parsed a) ->
  tasks (main processes u env cl) = [].
Proof.
  intros H. unfold main.
  destruct (parse_args (DEFAULT_DIR u) cl) as [a | m | e];
    [now destruct (H a) | reflexivity | reflexivity].
Qed.

Lemma calls_made_In (processes : positive) (u : Z) (env : Z -> DocumentEnv)
    (cl : command_line) (x : fn_args) (m : M unit) :
  In (x, m) (calls_made (main processes u env cl)) ->
  exists a, parse_args (DEFAULT_DIR u) cl = Parsed a
            /\ In x (jobs a) /\ m = job_func env x.
Proof.
  destruct (parse_args (DEFAULT_DIR u) cl) as [a | msg | e] eqn:E.
  - rewrite (main_parsed _ _ _ _ _ E). unfold calls_made. simpl.
    intros H. apply in_concat in H as (calls & Hcalls & Hin).
    apply in_map_iff in Hcalls as (chunk & <- & Hchunk).
    apply mapstar_In in Hin as [Hx ->].
    exists a. repeat split; auto.
    rewrite <- (task_batches_concat processes a).
    apply in_concat. eauto.
  - unfold calls_made. rewrite main_not_parsed; [contradiction |].
    intros a. rewrite E. discriminate.
  - unfold calls_made. rewrite main_not_parsed; [contradiction |].
    intros a. rewrite E. discriminate.
Qed.

Lemma job_artifact_dir (env : DocumentEnv) (x : fn_args) (ev : event)
    (dir : string) :
  In ev (events (generate_single_image env x)) ->
  artifact_dir ev = Some dir -> dir = output_dir (args x).
Proof.
  destruct (generate_single_image_path env x) as [e' H | d' e' H Hc | d' e' H Hc Hs | d' e' H Hc Hs Hg | d' H Hc Hs Hg];
    simpl; intros Hin Hdir;
    repeat (destruct Hin as [<- | Hin]; [simpl in Hdir; congruence |]);
    contradiction.
Qed.

(** ** The default directory *)

Lemma randint_range (a b u : Z) : a <= b -> a <= randint a b u <= b.
Proof.
  intros H. unfold randint, randbelow.
  pose proof (Z.mod_pos_bound u (b - a + 1)). lia.
Qed.

Lemma randint_onto (a b n : Z) :
  a <= n <= b -> randint a b (n - a) = n.
Proof.
  intros H. unfold randint, randbelow. rewrite Z.mod_small; lia.
Qed.

(** C9: the default directory is "/data/synthetic_trial_" followed by
    a number of 10000..100000, any of which can come out; one draw
    serves the whole run, so every job of a run without [--output_dir]
    writes under that one directory; and two runs on the same command
    line can differ in it. *)
Theorem DEFAULT_DIR_spec :
  (forall u, exists n,
     10000 <= n <= 100000
     /\ DEFAULT_DIR u = ("/data/synthetic_trial_" ++ str n)%string)
  /\ (forall n, 10000 <= n <= 100000 ->
        exists u, DEFAULT_DIR u = ("/data/synthetic_trial_" ++ str n)%string)
  /\ (forall processes u env cl x m,
        output_dir_flag cl = None ->
        In (x, m) (calls_made (main processes u env cl)) ->
        output_dir (args x) = DEFAULT_DIR u
        /\ forall ev dir, In ev (events m) ->
             artifact_dir ev = Some dir -> dir = DEFAULT_DIR u)
  /\ (exists u1 u2, DEFAULT_DIR u1 <> DEFAULT_DIR u2).
Proof.
  split; [| split; [| split]].
  - intros u. exists (randint 10000 100000 u).
    split; [apply randint_range; lia | reflexivity].
  - intros n Hn. exists (n - 10000). unfold DEFAULT_DIR.
    now rewrite randint_onto.
  - intros processes u env cl x m Hflag Hin.
    apply calls_made_In in Hin as (a & Hparse & Hx & ->).
    apply jobs_In in Hx as [Hargs _].
    apply parse_args_inv in Hparse as (_ & _ & _ & Hdir).
    rewrite Hflag in Hdir.
    assert (Hout : output_dir (args x) = DEFAULT_DIR u) by congruence.
    split; [exact Hout |].
    intros ev dir Hev Hd. rewrite <- Hout.
    now apply (job_artifact_dir (env (iter x)) x ev).
  - exists 0, 1. vm_compute. discriminate.
Qed.

Lemma DEFAULT_DIR_spec_witness :
  (exists u, DEFAULT_DIR u = ("/data/synthetic_trial_" ++ str 99585)%string)
  /\ output_dir (args (mk_fn_args 0 (mkNamespace 5 1 1 (DEFAULT_DIR 7))))
     = DEFAULT_DIR 7.
Proof.
  split.
  - apply (proj1 (proj2 DEFAULT_DIR_spec) 99585). lia.
  - apply (proj1 (proj2 (proj2 DEFAULT_DIR_spec)) 1%positive 7
             (fun i => healthy (1000 + i)) (mk_command_line [] None)
             (mk_fn_args 0 (mkNamespace 5 1 1 (DEFAULT_DIR 7)))
             (job_func (fun i => healthy (1000 + i))
                (mk_fn_args 0 (mkNamespace 5 1 1 (DEFAULT_DIR 7))))
             eq_refl).
    vm_compute. left. reflexivity.
Defined.

(** ** Jobs and tasks of a run *)

Lemma calls_made_all (processes : positive) (u : Z) (env : Z -> DocumentEnv)
    (cl : command_line) (a : Namespace) :
  parse_args (DEFAULT_DIR u) cl = Parsed a ->
  (forall x, In x (jobs a) -> raised (job_func env x) = false) ->
  calls_made (main processes u env cl) = map (call (job_func env)) (jobs a).
Proof.
  intros Hparse Hok. rewrite (main_parsed _ _ _ _ _ Hparse).
  unfold calls_made. simpl.
  rewrite <- (task_batches_concat processes a) in Hok |- *.
  induction (task_batches processes a) as [| chunk chunks IH]; simpl;
    [reflexivity |].
  rewrite map_app, IH.
  - f_equal. apply mapstar_all, Forall_forall.
    intros x Hx. apply Hok. simpl. apply in_or_app. now left.
  - intros x Hx. apply Hok. simpl. apply in_or_app. now right.
Qed.

(** C7: a command line that parses to a count N (at least 1) gives the
    N jobs of indices 0..N-1, each holding the one parsed namespace and
    so the levels of the batch; the tasks sent to the workers are these
    jobs, each once and in order, and when no job raises the job
    function is called on every one of them. *)
Theorem jobs_of_the_batch (processes : positive) (u : Z)
    (env : Z -> DocumentEnv) (cl : command_line) (a : Namespace)
    (Hparse : parse_args (DEFAULT_DIR u) cl = Parsed a) :
  1 <= output_count a
  /\ (forall s, nth_error (positionals cl) 0 = Some s ->
        py_int (PyStr s) = inr (output_count a))
  /\ List.length (jobs a) = Z.to_nat (output_count a)
  /\ (forall i, 0 <= i < output_count a ->
        nth_error (jobs a) (Z.to_nat i) = Some {| iter := i; args := a |})
  /\ (forall x, In x (jobs a) ->
        stain_level (args x) = stain_level a
        /\ text_noise_level (args x) = text_noise_level a)
  /\ List.concat (task_batches processes a) = jobs a
  /\ tasks (main processes u env cl)
     = map (mapstar (job_func env)) (task_batches processes a)
  /\ ((forall x, In x (jobs a) -> raised (job_func env x) = false) ->
        calls_made (main processes u env cl)
        = map (call (job_func env)) (jobs a)).
Proof.
  repeat split.
  - now apply parse_args_valid in Hparse.
  - intros s Hs. apply parse_args_inv in Hparse as (Hc & _).
    rewrite Hs in Hc.
    now apply get_value_Parsed, check_output_count_inr in Hc.
  - apply jobs_length.
  - apply jobs_nth.
  - apply jobs_In in H. destruct H as [-> _]. reflexivity.
  - apply jobs_In in H. destruct H as [-> _]. reflexivity.
  - apply task_batches_concat.
  - now rewrite (main_parsed _ _ _ _ _ Hparse).
  - now apply calls_made_all.
Qed.

Lemma jobs_of_the_batch_witness :
  List.length (jobs (mkNamespace 3 2 3 "/data/out")) = 3%nat
  /\ calls_made (main 2 0 healthy
                   (mk_command_line ["3"; "2"; "3"] (Some "/data/out")))
     = map (call (job_func healthy)) (jobs (mkNamespace 3 2 3 "/data/out")).
Proof.
  pose proof (jobs_of_the_batch 2 0 healthy
                (mk_command_line ["3"; "2"; "3"] (Some "/data/out"))
                (mkNamespace 3 2 3 "/data/out") eq_refl) as H.
  split.
  - exact (proj1 (proj2 (proj2 H))).
  - apply (proj2 (proj2 (proj2 (proj2 (proj2 (proj2 (proj2 H))))))).
    intros x Hx. reflexivity.
Defined.

(** ** A failing job and its siblings *)

Lemma healthy_job (seed : Z) (x : fn_args) :
  generate_single_image (healthy seed) x
  = ([banner x;
      ImageSaved seed (output_dir (args x));
      MaskSaved seed (output_dir (args x))], inr tt).
Proof. reflexivity. Qed.

(** C1 fails on five jobs in a pool of one process, where the tasks are
    the chunks (0,1), (2,3), (4): job 0 raising ends the first task and
    job 1 is never started. *)
Lemma sibling_in_same_task_is_skipped :
  ~ failure_isolated 1 0 (one_failure 0) (mk_command_line [] None).
Proof.
  intros H.
  specialize (H _ eq_refl 0 ltac:(simpl; lia) eq_refl).
  destruct H as [H _].
  - intros j Hj Hne. unfold job_func, one_failure. simpl iter.
    destruct (Z.eqb_spec j 0) as [-> | _]; [lia |].
    now rewrite healthy_job.
  - destruct (H 1 ltac:(simpl; lia) ltac:(lia)) as (m & Hin & _).
    vm_compute in Hin.
    repeat (destruct Hin as [Hin | Hin]; [discriminate Hin |]).
    exact Hin.
Qed.

Lemma completed_iff_returned (env : DocumentEnv) (x : fn_args) :
  completed (generate_single_image env x)
  = negb (raised (generate_single_image env x)).
Proof.
  destruct (generate_single_image_path env x) as [e' H | d' e' H Hc | d' e' H Hc Hs | d' e' H Hc Hs Hg | d' H Hc Hs Hg];
    reflexivity.
Qed.

Lemma main_ending (processes : positive) (u : Z) (env : Z -> DocumentEnv)
    (cl : command_line) (a : Namespace) :
  parse_args (DEFAULT_DIR u) cl = Parsed a ->
  (exists e, ending (main processes u env cl) = Uncaught e)
  <-> exists x m, In (x, m) (calls_made (main processes u env cl))
                  /\ raised m = true.
Proof.
  intros Hparse. rewrite (main_parsed _ _ _ _ _ Hparse).
  unfold calls_made. cbn [tasks ending].
  change (map (mapstar (job_func env)) (task_batches processes a))
    with (fst (pool_map processes (job_func env) (jobs a))).
  rewrite <- pool_map_raises.
  destruct (snd (pool_map processes (job_func env) (jobs a))) as [e | v].
  - split; intros _; exists e; reflexivity.
  - split; intros [e H]; discriminate.
Qed.

(** In a task the jobs are called in order up to the first one that
    raises, and none after it. *)
Lemma calls_in_task (processes : positive) (u : Z) (env : Z -> DocumentEnv)
    (cl : command_line) (a : Namespace) (chunk pre post : list fn_args)
    (x : fn_args) :
  parse_args (DEFAULT_DIR u) cl = Parsed a ->
  In chunk (task_batches processes a) ->
  chunk = pre ++ x :: post ->
  Forall (fun y => raised (job_func env y) = false) pre ->
  In (x, job_func env x) (calls_made (main processes u env cl))
  /\ (raised (job_func env x) = true ->
      forall y m, In y post ->
        ~ In (y, m) (calls_made (main processes u env cl))).
Proof.
  intros Hparse Hchunk -> Hpre.
  rewrite (main_parsed _ _ _ _ _ Hparse). unfold calls_made. simpl.
  split.
  - apply in_concat. exists (mapstar (job_func env) (pre ++ x :: post)).
    split; [now apply in_map |]. now apply mapstar_reaches.
  - intros Hx y m Hy Hin.
    apply in_concat in Hin as (calls & Hcalls & Hin).
    apply in_map_iff in Hcalls as (chunk' & <- & Hchunk').
    assert (Hnd : NoDup (List.concat (task_batches processes a))).
    { rewrite task_batches_concat. apply jobs_NoDup. }
    assert (chunk' = pre ++ x :: post) as ->.
    { apply (NoDup_concat_unique _ _ _ y Hnd); auto.
      - now apply mapstar_In in Hin.
      - apply in_or_app. right. now right. }
    rewrite (mapstar_stops _ _ _ _ Hpre Hx) in Hin.
    apply in_map_iff in Hin as (z & [= -> _] & Hz).
    apply NoDup_concat_chunk with (c := pre ++ x :: post) in Hnd; auto.
    change (pre ++ x :: post) with (pre ++ [x] ++ post) in Hnd.
    rewrite app_assoc in Hnd.
    exact (NoDup_app_disjoint _ _ y Hnd Hz Hy).
Qed.

(** C1, amended: a job that raises ends the task (chunk of the map) it
    belongs to.  In every task the jobs are called in order up to the
    first one that raises; the jobs after it in that task are not
    called; a job that is called and returns has written its image and
    its mask; and the run ends with the exception, status 1, exactly
    when some call raised. *)
Theorem failure_ends_its_task (processes : positive) (u : Z)
    (env : Z -> DocumentEnv) (cl : command_line) (a : Namespace)
    (Hparse : parse_args (DEFAULT_DIR u) cl = Parsed a) :
  let r := main processes u env cl in
  (forall chunk pre x post,
     In chunk (task_batches processes a) ->
     chunk = pre ++ x :: post ->
     Forall (fun y => raised (job_func env y) = false) pre ->
     In (x, job_func env x) (calls_made r)
     /\ (raised (job_func env x) = true ->
         forall y m, In y post -> ~ In (y, m) (calls_made r)))
  /\ (forall x m, In (x, m) (calls_made r) ->
        raised m = false -> completed m = true)
  /\ ((exists x m, In (x, m) (calls_made r) /\ raised m = true)
      <-> exists e, ending r = Uncaught e /\ exit_status (ending r) = 1).
Proof.
  intros r. subst r. split; [| split].
  - intros chunk pre x post Hchunk Heq Hpre.
    now apply calls_in_task with (a := a) (chunk := chunk) (pre := pre)
                                 (post := post).
  - intros x m Hin Hm.
    apply calls_made_In in Hin as (a' & _ & _ & ->).
    unfold job_func in *. rewrite completed_iff_returned. now rewrite Hm.
  - rewrite <- (main_ending _ _ _ _ _ Hparse). split.
    + intros [e He]. exists e. now rewrite He.
    + intros [e [He _]]. eauto.
Qed.

Lemma failure_ends_its_task_witness :
  (exists e,
     ending (main 1 0 (one_failure 0) (mk_command_line [] None)) = Uncaught e
     /\ exit_status
          (ending (main 1 0 (one_failure 0) (mk_command_line [] None))) = 1)
  /\ forall m,
       ~ In (mk_fn_args 1 (mkNamespace 5 1 1 (DEFAULT_DIR 0)), m)
            (calls_made (main 1 0 (one_failure 0) (mk_command_line [] None))).
Proof.
  pose proof (failure_ends_its_task 1 0 (one_failure 0)
                (mk_command_line [] None)
                (mkNamespace 5 1 1 (DEFAULT_DIR 0)) eq_refl) as H.
  cbv zeta in H. destruct H as (Htask & _ & Hend). split.
  - apply Hend.
    exists (mk_fn_args 0 (mkNamespace 5 1 1 (DEFAULT_DIR 0))).
    exists (job_func (one_failure 0)
              (mk_fn_args 0 (mkNamespace 5 1 1 (DEFAULT_DIR 0)))).
    split; [vm_compute; left; reflexivity | reflexivity].
  - intros m.
    apply (proj2 (Htask
             [mk_fn_args 0 (mkNamespace 5 1 1 (DEFAULT_DIR 0));
              mk_fn_args 1 (mkNamespace 5 1 1 (DEFAULT_DIR 0))]
             [] (mk_fn_args 0 (mkNamespace 5 1 1 (DEFAULT_DIR 0)))
             [mk_fn_args 1 (mkNamespace 5 1 1 (DEFAULT_DIR 0))]
             ltac:(vm_compute; left; reflexivity) eq_refl
             (Forall_nil _))).
    + reflexivity.
    + now left.
Defined.

(** *** Job 1 of 5 *)

Lemma default_chunksize_5 (processes : positive) :
  default_chunksize 5 processes
  = if (processes =? 1)%positive then 2%nat else 1%nat.
Proof.
  destruct (Pos.eqb_spec processes 1) as [-> | Hne]; [reflexivity |].
  unfold default_chunksize.
  assert (Hbig : (5 < Pos.to_nat processes * 4)%nat) by lia.
  rewrite (Nat.mod_small _ _ Hbig), (Nat.div_small _ _ Hbig). reflexivity.
Qed.

Lemma task_batches_5 (processes : positive) (dir : string) :
  task_batches processes (five dir)
  = if (processes =? 1)%positive
    then [[mk_fn_args 0 (five dir); mk_fn_args 1 (five dir)];
          [mk_fn_args 2 (five dir); mk_fn_args 3 (five dir)];
          [mk_fn_args 4 (five dir)]]
    else [[mk_fn_args 0 (five dir)]; [mk_fn_args 1 (five dir)];
          [mk_fn_args 2 (five dir)]; [mk_fn_args 3 (five dir)];
          [mk_fn_args 4 (five dir)]].
Proof.
  unfold task_batches.
  change (List.length (jobs (five dir))) with 5%nat.
  rewrite default_chunksize_5.
  destruct (processes =? 1)%positive; reflexivity.
Qed.

(** The scenario of a forced failure on job 1 of 5, for any size of the
    pool: job 1 is the last of its task whatever the chunk size, so jobs
    0, 2, 3 and 4 are called and complete, and the run ends with the
    exception. *)
Lemma forced_failure_on_job_1_of_5 (processes : positive) (u : Z)
    (env : Z -> DocumentEnv) (flag : option string) (a : Namespace) :
  parse_args (DEFAULT_DIR u) (mk_command_line [] flag) = Parsed a ->
  raised (job_func env (mk_fn_args 1 a)) = true ->
  (forall j, In j [0; 2; 3; 4] ->
     raised (job_func env (mk_fn_args j a)) = false) ->
  (forall j, In j [0; 2; 3; 4] ->
     In (mk_fn_args j a, job_func env (mk_fn_args j a))
        (calls_made (main processes u env (mk_command_line [] flag)))
     /\ completed (job_func env (mk_fn_args j a)) = true)
  /\ exists e,
       ending (main processes u env (mk_command_line [] flag)) = Uncaught e.
Proof.
  intros Hparse H1 Hok.
  assert (Ha : a = five (output_dir a)).
  { simpl in Hparse. injection Hparse as <-. reflexivity. }
  assert (Hb := task_batches_5 processes (output_dir a)).
  rewrite <- Ha in Hb.
  assert (H0 := Hok 0 ltac:(simpl; tauto)).
  assert (H2 := Hok 2 ltac:(simpl; tauto)).
  assert (H3 := Hok 3 ltac:(simpl; tauto)).
  assert (H4 := Hok 4 ltac:(simpl; tauto)).
  assert (Hcall : forall chunk pre x post,
             In chunk (task_batches processes a) ->
             chunk = pre ++ x :: post ->
             Forall (fun y => raised (job_func env y) = false) pre ->
             In (x, job_func env x)
                (calls_made (main processes u env (mk_command_line [] flag)))).
  { intros chunk pre x post Hc He Hp.
    now apply (calls_in_task processes u env _ a chunk pre post x). }
  split.
  - intros j Hj. split.
    + rewrite Hb in Hcall.
      destruct (processes =? 1)%positive; simpl in Hj;
        destruct Hj as [<- | [<- | [<- | [<- | []]]]].
      * eapply (Hcall _ [] _ [_]); [left; reflexivity | reflexivity | auto].
      * eapply (Hcall _ [] _ [_]);
          [right; left; reflexivity | reflexivity | auto].
      * eapply (Hcall _ [_] _ []);
          [right; left; reflexivity | reflexivity | auto].
      * eapply (Hcall _ [] _ []);
          [right; right; left; reflexivity | reflexivity | auto].
      * eapply (Hcall _ [] _ []); [left; reflexivity | reflexivity | auto].
      * eapply (Hcall _ [] _ []);
          [right; right; left; reflexivity | reflexivity | auto].
      * eapply (Hcall _ [] _ []);
          [right; right; right; left; reflexivity | reflexivity | auto].
      * eapply (Hcall _ [] _ []);
          [right; right; right; right; left; reflexivity | reflexivity
          | auto].
    + unfold job_func in *. rewrite completed_iff_returned.
      now rewrite (Hok j Hj).
  - apply (main_ending _ _ _ _ _ Hparse).
    exists (mk_fn_args 1 a), (job_func env (mk_fn_args 1 a)).
    split; [| exact H1].
    rewrite Hb in Hcall. destruct (processes =? 1)%positive.
    + eapply (Hcall _ [_] _ []); [left; reflexivity | reflexivity | auto].
    + eapply (Hcall _ [] _ []);
        [right; left; reflexivity | reflexivity | auto].
Qed.

(** ** What a job does with its index *)

(** The index of a job goes into its first printed line and nowhere
    else: the constructor receives the two levels only, so the seed of
    a document is the choice of the [document] module alone. *)
Lemma job_index_only_in_banner (env : DocumentEnv) (a : Namespace)
    (i j : Z) :
  tl (events (generate_single_image env (mk_fn_args i a)))
  = tl (events (generate_single_image env (mk_fn_args j a)))
  /\ outcome (generate_single_image env (mk_fn_args i a))
     = outcome (generate_single_image env (mk_fn_args j a)).
Proof.
  unfold generate_single_image. simpl iter. simpl args.
  destruct (Document_init env (stain_level a) (text_noise_level a))
    as [e | d]; [split; reflexivity |].
  destruct (try_except _ _) as [evs r]. split; reflexivity.
Qed.

(** * Further properties of the script *)

(** ** The two validators side by side *)

Lemma validator_error_class (k : nat) (v : py_value) (e : py_exception) :
  validator_of k v = inl e ->
  exc_cls e = ArgumentTypeError \/ exc_cls e = ValueError.
Proof.
  intros H. destruct (py_int v) as [e' | n] eqn:E.
  - right. apply py_int_error with v.
    destruct k; simpl in H;
      [rewrite (check_output_count_not_int _ _ E) in H
      | rewrite (check_level_not_int _ _ E) in H];
      now injection H as <-.
  - left. destruct k; simpl in H.
    + destruct (check_output_count_cases _ _ E) as [[_ Hc] | [_ Hc]];
        rewrite Hc in H; [discriminate | now injection H as <-].
    + destruct (check_level_cases _ _ E) as [[_ Hc] | [_ Hc]];
        rewrite Hc in H; [discriminate | now injection H as <-].
Qed.

(** X1: every level the level validator accepts is a count the count
    validator accepts, with the same value; a count of at most 5 is an
    accepted level; and on an input that [int] rejects both fail with
    the same [ValueError]. *)
Theorem level_is_a_count :
  (forall v n, check_level v = inr n -> check_output_count v = inr n)
  /\ (forall v n, check_output_count v = inr n -> n <= 5 ->
        check_level v = inr n)
  /\ (forall v e, exc_cls e = ValueError ->
        (check_level v = inl e <-> check_output_count v = inl e)).
Proof.
  split; [| split].
  - intros v n H. apply check_level_inr in H as [E Hn].
    destruct (check_output_count_cases _ _ E) as [[_ Hc] | [Hr _]];
      [exact Hc | lia].
  - intros v n H Hn. apply check_output_count_inr in H as [E H1].
    destruct (check_level_cases _ _ E) as [[_ Hc] | [Hr _]];
      [exact Hc | lia].
  - intros v e He. destruct (py_int v) as [e' | n] eqn:E.
    + rewrite (check_level_not_int _ _ E),
              (check_output_count_not_int _ _ E). tauto.
    + split; intros H; exfalso.
      * destruct (check_level_cases _ _ E) as [[_ Hc] | [_ Hc]];
          rewrite Hc in H; [discriminate |].
        injection H as <-. discriminate He.
      * destruct (check_output_count_cases _ _ E) as [[_ Hc] | [_ Hc]];
          rewrite Hc in H; [discriminate |].
        injection H as <-. discriminate He.
Qed.

Lemma level_is_a_count_witness :
  check_output_count (PyStr "4") = inr 4
  /\ check_level (PyStr "2") = inr 2.
Proof.
  split.
  - apply (proj1 level_is_a_count (PyStr "4") 4). reflexivity.
  - apply (proj1 (proj2 level_is_a_count) (PyStr "2") 2);
      [reflexivity | lia].
Defined.

(** ** What [parse_args] lets through *)

Lemma get_value_validator (k : nat) (name s : string) :
  match validator_of k (PyStr s) with
  | inr n => get_value (validator_of k) name s = Parsed n
  | inl _ => exists msg, get_value (validator_of k) name s = ArgumentError msg
  end.
Proof.
  unfold get_value.
  destruct (validator_of k (PyStr s)) as [e | n] eqn:E; [| reflexivity].
  destruct (validator_error_class _ _ _ E) as [-> | ->]; eauto.
Qed.

Lemma optional_positional_not_propagated (k : nat) (name : string)
    (default : Z) (arg : option string) (e : py_exception) :
  optional_positional (validator_of k) name default arg <> Propagated e.
Proof.
  destruct arg as [s |]; simpl; [| discriminate].
  pose proof (get_value_validator k name s) as H.
  destruct (validator_of k (PyStr s)).
  - destruct H as [msg ->]. discriminate.
  - rewrite H. discriminate.
Qed.

(** [parse_args] yields a namespace or an argument error: no exception
    of a validator gets through it. *)
Lemma parse_args_not_propagated (d : string) (cl : command_line)
    (e : py_exception) :
  parse_args d cl <> Propagated e.
Proof.
  unfold parse_args.
  pose proof (optional_positional_not_propagated 0 "check_output_count" 5
                (nth_error (positionals cl) 0)) as H0.
  pose proof (optional_positional_not_propagated 1 "check_level" 1
                (nth_error (positionals cl) 1)) as H1.
  pose proof (optional_positional_not_propagated 1 "check_level" 1
                (nth_error (positionals cl) 2)) as H2.
  simpl validator_of in *.
  destruct (optional_positional check_output_count _ _ _) as [c | m | e0];
    cbn [parsed_bind]; [| discriminate | now destruct (H0 e0)].
  destruct (optional_positional check_level _ _ (nth_error _ 1))
    as [s | m | e1]; cbn [parsed_bind];
    [| discriminate | now destruct (H1 e1)].
  destruct (optional_positional check_level _ _ (nth_error _ 2))
    as [t | m | e2]; cbn [parsed_bind];
    [| discriminate | now destruct (H2 e2)].
  destruct (3 <? _)%nat; discriminate.
Qed.

(** X2: whatever the command line, a namespace that [parse_args] returns
    holds a count of at least 1 and two levels of 1..5, so the job list
    built from it is not empty. *)
Theorem parsed_namespace_valid (d : string) (cl : command_line)
    (a : Namespace) (Hparse : parse_args d cl = Parsed a) :
  1 <= output_count a
  /\ 1 <= stain_level a <= 5
  /\ 1 <= text_noise_level a <= 5
  /\ jobs a <> [].
Proof.
  destruct (parse_args_valid _ _ _ Hparse) as (Hc & Hs & Ht).
  repeat split; try lia.
  intros E. apply (f_equal (@List.length _)) in E.
  rewrite jobs_length in E. simpl in E. lia.
Qed.

Lemma parsed_namespace_valid_witness :
  1 <= 7 /\ 1 <= 5 <= 5 /\ 1 <= 1 <= 5
  /\ jobs (mkNamespace 7 5 1 "/data/out") <> [].
Proof.
  exact (parsed_namespace_valid "/data/out"
           (mk_command_line [" 7"; "5"] None)
           (mkNamespace 7 5 1 "/data/out") eq_refl).
Defined.

(** X3: a positional argument that its validator rejects, at any of the
    three positions, ends [main] in the parser: nothing is printed, no
    job is started, and the exit status is 2. *)
Theorem invalid_argument_stops_main (processes : positive) (u : Z)
    (env : Z -> DocumentEnv) (cl : command_line) (k : nat) (s : string)
    (e : py_exception)
    (Hk : (k < 3)%nat)
    (Harg : nth_error (positionals cl) k = Some s)
    (Hrej : validator_of k (PyStr s) = inl e) :
  exists msg,
    main processes u env cl = mk_main_run [] [] (Usage msg)
    /\ exit_status (ending (main processes u env cl)) = 2.
Proof.
  assert (Herr : exists msg, parse_args (DEFAULT_DIR u) cl = ArgumentError msg).
  { destruct (parse_args (DEFAULT_DIR u) cl) as [a | msg | e'] eqn:E.
    - exfalso. destruct (parse_args_inv _ _ _ E) as (H0 & H1 & H2 & _).
      destruct k as [| [| [| k]]]; [| | | lia]; simpl in Hrej.
      + rewrite Harg in H0. apply get_value_Parsed in H0. congruence.
      + rewrite Harg in H1. apply get_value_Parsed in H1. congruence.
      + rewrite Harg in H2. apply get_value_Parsed in H2. congruence.
    - eauto.
    - now destruct (parse_args_not_propagated _ _ _ E). }
  destruct Herr as [msg Hmsg]. exists msg.
  unfold main. rewrite Hmsg. split; reflexivity.
Qed.

Lemma invalid_argument_stops_main_witness :
  exists msg,
    main 4 0 healthy (mk_command_line ["3"; "2"; "six"] None)
    = mk_main_run [] [] (Usage msg)
    /\ exit_status
         (ending (main 4 0 healthy
                    (mk_command_line ["3"; "2"; "six"] None))) = 2.
Proof.
  apply (invalid_argument_stops_main 4 0 healthy
           (mk_command_line ["3"; "2"; "six"] None) 2 "six"
           (PyExc ValueError
              "invalid literal for int() with base 10: 'six'")).
  - lia.
  - reflexivity.
  - reflexivity.
Defined.

(** ** More on one job *)

(** X4: when each artifact is written: the image exactly when the
    constructor, [create] and [save] all return; the mask exactly when
    [save_ground_truth] returns as well.  A job whose constructor,
    [create] or [save] raises writes nothing. *)
Theorem artifacts_written_iff (env : DocumentEnv) (a : fn_args) :
  let m := generate_single_image env a in
  let dir := output_dir (args a) in
  (image_written m = true
   <-> exists d,
         Document_init env (stain_level (args a)) (text_noise_level (args a))
         = inr d
         /\ create env d = None
         /\ save env d dir = None)
  /\ (mask_written m = true
      <-> exists d,
            Document_init env (stain_level (args a))
                              (text_noise_level (args a)) = inr d
            /\ create env d = None
            /\ save env d dir = None
            /\ save_ground_truth env d dir = None).
Proof.
  intros m dir. subst m dir.
  destruct (generate_single_image_path env a) as [e' H | d' e' H Hc | d' e' H Hc Hs | d' e' H Hc Hs Hg | d' H Hc Hs Hg];
    (split; split);
    first [ intros Hw; discriminate Hw
          | intros _; exists d'; now auto
          | intros (d & Hd & Hrest); rewrite H in Hd;
            first [ discriminate Hd
                  | injection Hd as <-;
                    first [reflexivity | intuition congruence] ] ].
Qed.

Lemma artifacts_written_iff_witness :
  exists d,
    Document_init (failing_mask 99585) 1 1 = inr d
    /\ create (failing_mask 99585) d = None
    /\ save (failing_mask 99585) d "/data/out" = None.
Proof.
  apply (proj1 (proj1 (artifacts_written_iff (failing_mask 99585)
                         (mk_fn_args 0 (mkNamespace 5 1 1 "/data/out"))))).
  reflexivity.
Defined.

(** X5: once the document is constructed, an exception of [create], [save]
    or [save_ground_truth] (the first of them to raise) is the one the
    job raises, and the seed of the document is the last line
    printed. *)
Theorem method_failure_reported (env : DocumentEnv) (a : fn_args)
    (d : Document)
    (Hd : Document_init env (stain_level (args a)) (text_noise_level (args a))
          = inr d)
    (Hraised : raised (generate_single_image env a) = true) :
  exists e,
    outcome (generate_single_image env a) = inl e
    /\ last (events (generate_single_image env a)) (banner a)
       = Stdout (str (random_seed d))
    /\ (create env d = Some e
        \/ (create env d = None
            /\ save env d (output_dir (args a)) = Some e)
        \/ (create env d = None
            /\ save env d (output_dir (args a)) = None
            /\ save_ground_truth env d (output_dir (args a)) = Some e)).
Proof.
  destruct (generate_single_image_path env a) as [e' H | d' e' H Hc | d' e' H Hc Hs | d' e' H Hc Hs Hg | d' H Hc Hs Hg];
    rewrite Hd in H; try discriminate H; injection H as <-;
    try discriminate Hraised;
    exists e'; (split; [reflexivity | split; [reflexivity | tauto]]).
Qed.

Lemma method_failure_reported_witness :
  exists e,
    outcome (generate_single_image (failing_mask 99585)
               (mk_fn_args 0 (mkNamespace 5 1 1 "/data/out"))) = inl e
    /\ last (events (generate_single_image (failing_mask 99585)
                       (mk_fn_args 0 (mkNamespace 5 1 1 "/data/out"))))
            (banner (mk_fn_args 0 (mkNamespace 5 1 1 "/data/out")))
       = Stdout (str 99585)
    /\ (create (failing_mask 99585) (mkDocument 99585) = Some e
        \/ (create (failing_mask 99585) (mkDocument 99585) = None
            /\ save (failing_mask 99585) (mkDocument 99585) "/data/out"
               = Some e)
        \/ (create (failing_mask 99585) (mkDocument 99585) = None
            /\ save (failing_mask 99585) (mkDocument 99585) "/data/out"
               = None
            /\ save_ground_truth (failing_mask 99585) (mkDocument 99585)
                 "/data/out" = Some e)).
Proof.
  exact (method_failure_reported (failing_mask 99585)
           (mk_fn_args 0 (mkNamespace 5 1 1 "/data/out"))
           (mkDocument 99585) eq_refl eq_refl).
Defined.

(** X6: whatever exception the constructor raises, the job prints its first
    line only, writes nothing and raises [UnboundLocalError]: the
    exception of the constructor does not leave the job. *)
Theorem constructor_failure_unbound (env : DocumentEnv) (a : fn_args)
    (e : py_exception)
    (He : Document_init env (stain_level (args a)) (text_noise_level (args a))
          = inl e) :
  events (generate_single_image env a) = [banner a]
  /\ outcome (generate_single_image env a) = inl unbound_document
  /\ image_written (generate_single_image env a) = false
  /\ mask_written (generate_single_image env a) = false.
Proof.
  rewrite (constructor_failure env a e He). repeat split.
Qed.

Lemma constructor_failure_unbound_witness :
  outcome (generate_single_image failing_constructor
             (mk_fn_args 3 (mkNamespace 5 2 4 "/data/out")))
  = inl unbound_document.
Proof.
  exact (proj1 (proj2 (constructor_failure_unbound failing_constructor
                         (mk_fn_args 3 (mkNamespace 5 2 4 "/data/out"))
                         synthesis_error eq_refl))).
Defined.

(** ** More on the run *)

Section CallsFacts.
Context {A B : Type}.
Variable func : A -> M B.

Lemma mapstar_fst_prefix (chunk : list A) :
  exists k, map fst (mapstar func chunk) = firstn k chunk.
Proof.
  induction chunk as [| x chunk [k IH]]; [now exists 0%nat |].
  simpl. destruct (raised (func x)).
  - now exists 1%nat.
  - exists (S k). simpl. now rewrite IH.
Qed.

Lemma calls_fst_In (ls : list (list A)) (x : A) :
  In x (map fst (List.concat (map (mapstar func) ls))) ->
  In x (List.concat ls).
Proof.
  intros H. apply in_map_iff in H as ([y m] & <- & H).
  apply in_concat in H as (calls & Hcalls & H).
  apply in_map_iff in Hcalls as (chunk & <- & Hchunk).
  apply mapstar_In in H as [H _].
  apply in_concat. eauto.
Qed.

Lemma calls_fst_NoDup (ls : list (list A)) :
  NoDup (List.concat ls) ->
  NoDup (map fst (List.concat (map (mapstar func) ls))).
Proof.
  induction ls as [| chunk ls IH]; simpl; intros Hnd; [constructor |].
  rewrite map_app. apply NoDup_app.
  - destruct (mapstar_fst_prefix chunk) as [k ->].
    apply NoDup_app_remove_r in Hnd.
    rewrite <- (firstn_skipn k chunk) in Hnd.
    now apply NoDup_app_remove_r in Hnd.
  - apply IH. now apply NoDup_app_remove_l in Hnd.
  - intros x H1 H2. apply calls_fst_In in H2.
    apply in_map_iff in H1 as ([y m] & <- & H1).
    apply mapstar_In in H1 as [H1 _].
    exact (NoDup_app_disjoint _ _ _ Hnd H1 H2).
Qed.

(** A list with a raising element splits at the first one. *)
Lemma first_failure_split (l : list A) (x : A) :
  In x l -> raised (func x) = true ->
  exists pre y post,
    l = pre ++ y :: post
    /\ Forall (fun z => raised (func z) = false) pre
    /\ raised (func y) = true.
Proof.
  induction l as [| z l IH]; simpl; [contradiction |].
  intros Hin Hx. destruct (raised (func z)) eqn:Ez.
  - exists [], z, l. auto.
  - destruct Hin as [-> | Hin]; [congruence |].
    destruct (IH Hin Hx) as (pre & y & post & -> & Hpre & Hy).
    exists (z :: pre), y, post. auto.
Qed.

End CallsFacts.

(** X7: no job is started twice in a run. *)
Theorem each_job_called_at_most_once (processes : positive) (u : Z)
    (env : Z -> DocumentEnv) (cl : command_line) :
  NoDup (map fst (calls_made (main processes u env cl))).
Proof.
  destruct (parse_args (DEFAULT_DIR u) cl) as [a | msg | e] eqn:E.
  - rewrite (main_parsed _ _ _ _ _ E). unfold calls_made.
    cbn [tasks]. apply calls_fst_NoDup.
    rewrite task_batches_concat. apply jobs_NoDup.
  - unfold calls_made. rewrite main_not_parsed; [constructor |].
    intros a. rewrite E. discriminate.
  - unfold calls_made. rewrite main_not_parsed; [constructor |].
    intros a. rewrite E. discriminate.
Qed.

(** Every job that [main] starts holds an index of 0..N-1 and levels of
    1..5, N being the parsed count, and its result is that of
    [generate_single_image] on it. *)
Lemma started_jobs_valid (processes : positive) (u : Z)
    (env : Z -> DocumentEnv) (cl : command_line) (x : fn_args) (m : M unit)
    (Hcall : In (x, m) (calls_made (main processes u env cl))) :
  0 <= iter x < output_count (args x)
  /\ 1 <= stain_level (args x) <= 5
  /\ 1 <= text_noise_level (args x) <= 5
  /\ parse_args (DEFAULT_DIR u) cl = Parsed (args x)
  /\ m = generate_single_image (env (iter x)) x.
Proof.
  apply calls_made_In in Hcall as (a & Hparse & Hx & ->).
  apply jobs_In in Hx as [<- Hi].
  destruct (parse_args_valid _ _ _ Hparse) as (_ & Hs & Ht).
  repeat split; auto; lia.
Qed.

(** A job depends on the [document] module through the constructor at
    the two levels of its namespace and through the three methods. *)
Lemma generate_single_image_ext (env env' : DocumentEnv) (x : fn_args) :
  Document_init env (stain_level (args x)) (text_noise_level (args x))
  = Document_init env' (stain_level (args x)) (text_noise_level (args x)) ->
  (forall d, create env d = create env' d) ->
  (forall d dir, save env d dir = save env' d dir) ->
  (forall d dir, save_ground_truth env d dir = save_ground_truth env' d dir) ->
  generate_single_image env x = generate_single_image env' x.
Proof.
  intros Hinit Hcreate Hsave Hmask.
  unfold generate_single_image. rewrite Hinit.
  destruct (Document_init env' _ _) as [e | d]; [reflexivity |].
  unfold call_create, call_save, call_save_ground_truth.
  now rewrite Hcreate, Hsave, Hmask.
Qed.

Lemma mapstar_ext {A B : Type} (f g : A -> M B) (chunk : list A) :
  (forall x, In x chunk -> f x = g x) ->
  mapstar f chunk = mapstar g chunk.
Proof.
  induction chunk as [| x chunk IH]; intros H; [reflexivity |].
  simpl. rewrite <- (H x) by now left.
  rewrite IH; [reflexivity |]. intros y Hy. apply H. now right.
Qed.

Lemma pool_map_ext {A B : Type} (processes : positive) (f g : A -> M B)
    (iterable : list A) :
  (forall x, In x iterable -> f x = g x) ->
  pool_map processes f iterable = pool_map processes g iterable.
Proof.
  intros H. unfold pool_map.
  set (size := default_chunksize (List.length iterable) processes).
  assert (E : map (mapstar f) (get_tasks size iterable)
              = map (mapstar g) (get_tasks size iterable)).
  { apply map_ext_in. intros chunk Hchunk. apply mapstar_ext.
    intros x Hx. apply H.
    destruct (Nat.eq_dec size 0) as [E0 | Hpos].
    - exfalso. rewrite E0 in Hchunk. unfold get_tasks in Hchunk.
      destruct (List.length iterable); simpl in Hchunk; contradiction.
    - rewrite <- (get_tasks_concat size iterable) by lia.
      apply in_concat. eauto. }
  now rewrite E.
Qed.

(** X8: the [Document] constructor is reached with levels of 1..5 only:
    two [document] modules whose constructors agree on the levels of
    1..5, and whose methods agree, give the same run of [main], whatever
    their constructors do on other levels. *)
Theorem constructor_sees_valid_levels (processes : positive) (u : Z)
    (env env' : Z -> DocumentEnv) (cl : command_line)
    (Hinit : forall i stain noise,
        1 <= stain <= 5 -> 1 <= noise <= 5 ->
        Document_init (env i) stain noise
        = Document_init (env' i) stain noise)
    (Hcreate : forall i d, create (env i) d = create (env' i) d)
    (Hsave : forall i d dir, save (env i) d dir = save (env' i) d dir)
    (Hmask : forall i d dir,
        save_ground_truth (env i) d dir = save_ground_truth (env' i) d dir) :
  main processes u env cl = main processes u env' cl.
Proof.
  unfold main.
  destruct (parse_args (DEFAULT_DIR u) cl) as [a | msg | e] eqn:E;
    try reflexivity.
  destruct (parse_args_valid _ _ _ E) as (_ & Hs & Ht).
  rewrite (pool_map_ext processes
             (fun x => generate_single_image (env (iter x)) x)
             (fun x => generate_single_image (env' (iter x)) x));
    [reflexivity |].
  intros x Hx. apply jobs_In in Hx as [Hargs _].
  apply generate_single_image_ext; auto.
  rewrite Hargs. now apply Hinit.
Qed.

Lemma constructor_sees_valid_levels_witness :
  main 2 0 healthy (mk_command_line ["3"; "5"; "1"] None)
  = main 2 0 strict_levels (mk_command_line ["3"; "5"; "1"] None).
Proof.
  apply constructor_sees_valid_levels; try reflexivity.
  intros i stain noise Hs Hn. simpl.
  destruct (Z.leb_spec 1 stain), (Z.leb_spec stain 5),
           (Z.leb_spec 1 noise), (Z.leb_spec noise 5);
    try lia; reflexivity.
Defined.

Lemma raised_job_iff_raised_call (processes : positive) (u : Z)
    (env : Z -> DocumentEnv) (cl : command_line) (a : Namespace) :
  parse_args (DEFAULT_DIR u) cl = Parsed a ->
  (exists x, In x (jobs a) /\ raised (job_func env x) = true)
  <-> exists x m, In (x, m) (calls_made (main processes u env cl))
                  /\ raised m = true.
Proof.
  intros Hparse. split.
  - intros (x & Hx & Hr).
    rewrite <- (task_batches_concat processes a) in Hx.
    apply in_concat in Hx as (chunk & Hchunk & Hx).
    destruct (first_failure_split (job_func env) chunk x Hx Hr)
      as (pre & y & post & Heq & Hpre & Hy).
    exists y, (job_func env y). split; [| exact Hy].
    now apply (calls_in_task processes u env cl a chunk pre post y).
  - intros (x & m & Hin & Hr).
    apply calls_made_In in Hin as (a' & Hparse' & Hx & ->).
    rewrite Hparse in Hparse'. injection Hparse' as <-. eauto.
Qed.

Lemma parsed_ending (processes : positive) (u : Z) (env : Z -> DocumentEnv)
    (cl : command_line) (a : Namespace) :
  parse_args (DEFAULT_DIR u) cl = Parsed a ->
  (ending (main processes u env cl) = Returned
   /\ forall x, In x (jobs a) -> raised (job_func env x) = false)
  \/ (exists e, ending (main processes u env cl) = Uncaught e)
     /\ exists x, In x (jobs a) /\ raised (job_func env x) = true.
Proof.
  intros Hparse.
  pose proof (main_ending processes u env cl a Hparse) as Hend.
  pose proof (raised_job_iff_raised_call processes u env cl a Hparse) as Hjob.
  destruct (ending (main processes u env cl)) as [| msg | e] eqn:E.
  - left. split; [reflexivity |]. intros x Hx.
    destruct (raised (job_func env x)) eqn:Hr; [| reflexivity].
    assert (Hex : exists e, Returned = Uncaught e).
    { apply Hend, Hjob. eauto. }
    destruct Hex as [e He]. discriminate He.
  - rewrite (main_parsed _ _ _ _ _ Hparse) in E. cbn [ending] in E.
    destruct (snd (pool_map _ _ _)); discriminate E.
  - right. split; [eauto |]. apply Hjob, Hend. eauto.
Qed.

(** X9: the exit status of [main] is 2 exactly when the parser reports
    an argument error; when the command line parses it is 1 exactly when
    some job of the batch raises, and 0 exactly when every job of the
    batch returns. *)
Theorem exit_status_of_main (processes : positive) (u : Z)
    (env : Z -> DocumentEnv) (cl : command_line) :
  (exit_status (ending (main processes u env cl)) = 2
   <-> exists msg, parse_args (DEFAULT_DIR u) cl = ArgumentError msg)
  /\ (forall a, parse_args (DEFAULT_DIR u) cl = Parsed a ->
        (exit_status (ending (main processes u env cl)) = 1
         <-> exists x, In x (jobs a) /\ raised (job_func env x) = true)
        /\ (exit_status (ending (main processes u env cl)) = 0
            <-> forall x, In x (jobs a) -> raised (job_func env x) = false)).
Proof.
  split.
  - destruct (parse_args (DEFAULT_DIR u) cl) as [a | msg | e] eqn:E.
    + destruct (parsed_ending processes u env cl a E)
        as [[-> _] | [[e ->] _]]; simpl;
        (split; [discriminate | intros [msg H]; discriminate H]).
    + unfold main. rewrite E. simpl. split; eauto.
    + now destruct (parse_args_not_propagated _ _ _ E).
  - intros a Hparse.
    destruct (parsed_ending processes u env cl a Hparse)
      as [[-> Hall] | [[e ->] (x & Hx & Hr)]]; simpl.
    + split; split; try discriminate; auto.
      intros (x & Hx & Hr). rewrite (Hall x Hx) in Hr. discriminate Hr.
    + split; split; try discriminate; eauto.
      intros Hall. rewrite (Hall x Hx) in Hr. discriminate Hr.
Qed.

Lemma exit_status_of_main_witness :
  exit_status (ending (main 1 0 (one_failure 3) (mk_command_line ["4"] None)))
  = 1.
Proof.
  apply (proj2 (exit_status_of_main 1 0 (one_failure 3)
                  (mk_command_line ["4"] None))
           (mkNamespace 4 1 1 (DEFAULT_DIR 0)) eq_refl).
  exists (mk_fn_args 3 (mkNamespace 4 1 1 (DEFAULT_DIR 0))).
  split; [vm_compute; tauto | reflexivity].
Defined.

Lemma returned_job_artifacts (env : DocumentEnv) (x : fn_args) :
  raised (generate_single_image env x) = false ->
  List.length (filter is_image (events (generate_single_image env x))) = 1%nat
  /\ List.length (filter is_mask (events (generate_single_image env x)))
     = 1%nat.
Proof.
  destruct (generate_single_image_path env x) as [e' H | d' e' H Hc | d' e' H Hc Hs | d' e' H Hc Hs Hg | d' H Hc Hs Hg];
    intros Hr; try discriminate Hr. split; reflexivity.
Qed.

Lemma all_returned_counts (env : Z -> DocumentEnv) (l : list fn_args) :
  (forall x, In x l -> raised (job_func env x) = false) ->
  List.length (filter is_image
                 (flat_map (fun c => events (snd c))
                           (map (call (job_func env)) l)))
  = List.length l
  /\ List.length (filter is_mask
                    (flat_map (fun c => events (snd c))
                              (map (call (job_func env)) l)))
     = List.length l.
Proof.
  induction l as [| x l IH]; intros Hok; [split; reflexivity |].
  destruct IH as [IHi IHm]; [intros y Hy; apply Hok; now right |].
  destruct (returned_job_artifacts (env (iter x)) x) as [Hi Hm];
    [apply Hok; now left |].
  cbn [map flat_map call snd].
  rewrite !filter_app, !length_app. unfold job_func at 1 3.
  rewrite Hi, Hm, IHi, IHm. split; reflexivity.
Qed.

(** X10: when every job of the batch returns, [main] returns, and the run
    has written exactly N images and N masks, N being the parsed
    count. *)
Theorem successful_run_writes_all_pairs (processes : positive) (u : Z)
    (env : Z -> DocumentEnv) (cl : command_line) (a : Namespace)
    (Hparse : parse_args (DEFAULT_DIR u) cl = Parsed a)
    (Hok : forall x, In x (jobs a) -> raised (job_func env x) = false) :
  ending (main processes u env cl) = Returned
  /\ List.length (images_of (main processes u env cl))
     = Z.to_nat (output_count a)
  /\ List.length (masks_of (main processes u env cl))
     = Z.to_nat (output_count a).
Proof.
  split.
  - destruct (parsed_ending processes u env cl a Hparse)
      as [[H _] | [_ (x & Hx & Hr)]]; [exact H |].
    rewrite (Hok x Hx) in Hr. discriminate Hr.
  - unfold images_of, masks_of, run_events.
    rewrite (calls_made_all _ _ _ _ _ Hparse Hok), <- jobs_length.
    now apply all_returned_counts.
Qed.

Lemma successful_run_writes_all_pairs_witness :
  ending (main 2 0 healthy
            (mk_command_line ["3"; "2"; "3"] (Some "/data/out"))) = Returned
  /\ List.length (images_of (main 2 0 healthy
                    (mk_command_line ["3"; "2"; "3"] (Some "/data/out"))))
     = 3%nat
  /\ List.length (masks_of (main 2 0 healthy
                    (mk_command_line ["3"; "2"; "3"] (Some "/data/out"))))
     = 3%nat.
Proof.
  apply (successful_run_writes_all_pairs 2 0 healthy
           (mk_command_line ["3"; "2"; "3"] (Some "/data/out"))
           (mkNamespace 3 2 3 "/data/out") eq_refl).
  intros x Hx. reflexivity.
Defined.

(** X11: with [--output_dir DIR] the random draw behind the default plays no
    part: the run is the same whatever the draw, and every artifact of
    every job is written under DIR. *)
Theorem explicit_output_dir (processes : positive) (u1 u2 : Z)
    (env : Z -> DocumentEnv) (cl : command_line) (dir : string)
    (Hflag : output_dir_flag cl = Some dir) :
  main processes u1 env cl = main processes u2 env cl
  /\ forall ev d, In ev (run_events (main processes u1 env cl)) ->
       artifact_dir ev = Some d -> d = dir.
Proof.
  split.
  - unfold main, parse_args. rewrite Hflag. reflexivity.
  - intros ev d Hev Hd. unfold run_events in Hev.
    apply in_flat_map in Hev as ([x m] & Hcall & Hev). simpl in Hev.
    apply calls_made_In in Hcall as (a & Hparse & Hx & ->).
    apply jobs_In in Hx as [Hargs _].
    apply parse_args_inv in Hparse as (_ & _ & _ & Hdir).
    rewrite Hflag in Hdir.
    rewrite (job_artifact_dir (env (iter x)) x ev d Hev Hd). congruence.
Qed.

Lemma explicit_output_dir_witness :
  main 2 0 healthy (mk_command_line ["2"] (Some "/data/out"))
  = main 2 54321 healthy (mk_command_line ["2"] (Some "/data/out")).
Proof.
  exact (proj1 (explicit_output_dir 2 0 54321 healthy
                  (mk_command_line ["2"] (Some "/data/out")) "/data/out"
                  eq_refl)).
Defined.

(** ** Batches of at most four jobs per process *)

Lemma default_chunksize_small (len : nat) (processes : positive) :
  (1 <= len <= Pos.to_nat processes * 4)%nat ->
  default_chunksize len processes = 1%nat.
Proof.
  intros [H1 H2]. unfold default_chunksize.
  destruct (Nat.eqb_spec len 0); [lia |].
  set (w := (Pos.to_nat processes * 4)%nat) in *.
  destruct (Nat.eq_dec len w) as [-> | Hne].
  - rewrite Nat.Div0.mod_same, Nat.div_same by lia. reflexivity.
  - rewrite Nat.mod_small, Nat.div_small by lia.
    destruct (Nat.eqb_spec len 0); [lia | reflexivity].
Qed.

Lemma get_tasks_fuel_singletons {T : Type} (fuel : nat) (it : list T) :
  (List.length it <= fuel)%nat ->
  get_tasks_fuel fuel 1 it = map (fun x => [x]) it.
Proof.
  revert it. induction fuel as [| fuel IH]; intros [| x it] Hlen;
    simpl in *; try reflexivity; try lia.
  rewrite IH by lia. reflexivity.
Qed.

Lemma calls_of_singletons {A B : Type} (func : A -> M B) (l : list A) :
  List.concat (map (mapstar func) (map (fun x => [x]) l))
  = map (call func) l.
Proof.
  induction l as [| x l IH]; simpl; [reflexivity |].
  rewrite IH. now destruct (raised (func x)).
Qed.

(** X12: when the count is at most four times the size of the pool, every
    task holds one job: each job of the batch is called, whichever of
    them raise. *)
Theorem small_batch_runs_every_job (processes : positive) (u : Z)
    (env : Z -> DocumentEnv) (cl : command_line) (a : Namespace)
    (Hparse : parse_args (DEFAULT_DIR u) cl = Parsed a)
    (Hsmall : output_count a <= 4 * Z.pos processes) :
  calls_made (main processes u env cl) = map (call (job_func env)) (jobs a).
Proof.
  rewrite (main_parsed _ _ _ _ _ Hparse). unfold calls_made. cbn [tasks].
  unfold task_batches, get_tasks.
  pose proof (parse_args_valid _ _ _ Hparse) as (Hc & _).
  rewrite default_chunksize_small by (rewrite jobs_length; lia).
  rewrite get_tasks_fuel_singletons by lia.
  apply calls_of_singletons.
Qed.

Lemma small_batch_runs_every_job_witness :
  calls_made (main 2 0 (one_failure 0) (mk_command_line [] None))
  = map (call (job_func (one_failure 0)))
        (jobs (mkNamespace 5 1 1 (DEFAULT_DIR 0))).
Proof.
  apply (small_batch_runs_every_job 2 0 (one_failure 0)
           (mk_command_line [] None)
           (mkNamespace 5 1 1 (DEFAULT_DIR 0)) eq_refl).
  simpl. lia.
Defined.

(** ** The index of a job *)

(** X13: every job first prints its number, the index plus one, whether
    it then fails or not; the rest of what it prints and writes, and how
    it ends, are those of the job of index 0 in the same environment:
    the index reaches neither the constructor nor the two saves. *)
Theorem index_only_numbers_the_job (env : DocumentEnv) (a : Namespace)
    (i : Z) :
  events (generate_single_image env (mk_fn_args i a))
  = Stdout ("Generating image #" ++ str (i + 1))
    :: tl (events (generate_single_image env (mk_fn_args 0 a)))
  /\ outcome (generate_single_image env (mk_fn_args i a))
     = outcome (generate_single_image env (mk_fn_args 0 a)).
Proof.
  destruct (job_index_only_in_banner env a i 0) as [Hev Hout].
  split; [| exact Hout]. rewrite <- Hev.
  destruct (generate_single_image_path env (mk_fn_args i a)) as [e' H | d' e' H Hc | d' e' H Hc Hs | d' e' H Hc Hs Hg | d' H Hc Hs Hg];
    reflexivity.
Qed.
